(** * Golf club leaderboard: the normalisation and aggregation pipeline

    A shallow embedding of [golf_leaderboard.py].  JSON payloads are the
    values [json.loads] builds; every Python exception the pipeline can run
    into is a constructor of [exn]; fallible pure code lives in [result],
    the collector in a state-and-exception monad whose state survives a
    raise (Python mutates [player_data] in place, so whatever was merged
    before an exception stays merged). *)

From Stdlib Require Import List ZArith QArith String Ascii Bool Lia.
From Stdlib Require Import Permutation Sorted.
From Stdlib Require Import Decimal DecimalString.
From ExtLib Require Import Structures.Monad.
Import ListNotations.
Import MonadNotation.
Local Open Scope monad_scope.
Local Open Scope Z_scope.

Set Implicit Arguments.

(* ------------------------------------------------------------------ *)
(** ** Values and exceptions *)

(** What [response.json()] returns.  Numbers are the integers (stroke
    counts); a dict is its items in insertion order, keys being unique. *)
#[local] Unset Elimination Schemes.
Inductive json : Type :=
| JNull
| JBool (b : bool)
| JNum (z : Z)
| JStr (s : string)
| JList (items : list json)
| JDict (fields : list (string * json)).
#[local] Set Elimination Schemes.

(** The exception classes the code can raise; all derive from [Exception]. *)
Inductive exn : Type :=
| AttributeError
| TypeError
| KeyError
| IndexError
| ZeroDivisionError
| RequestException.

Inductive result (A : Type) : Type :=
| Ok (a : A)
| Raise (e : exn).
Arguments Ok {A} a.
Arguments Raise {A} e.

#[global] Instance Monad_result : Monad result :=
  {| ret := fun _ a => Ok a;
     bind := fun _ _ m k => match m with Ok a => k a | Raise e => Raise e end |}.

(** A list comprehension / [for] loop over a pure fallible body. *)
Fixpoint mapM_result {A B : Type} (f : A -> result B) (l : list A)
  : result (list B) :=
  match l with
  | [] => Ok []
  | x :: rest =>
      y <- f x ;;
      ys <- mapM_result f rest ;;
      ret (y :: ys)
  end.

(* ------------------------------------------------------------------ *)
(** ** Python primitives on JSON values *)

(** [d.get(k)] on the items of a dict: the value stored under [k], if any. *)
Fixpoint dict_get (d : list (string * json)) (k : string) : option json :=
  match d with
  | [] => None
  | (k', v) :: rest => if String.eqb k k' then Some v else dict_get rest k
  end.

(** [k in d] *)
Definition dict_contains (d : list (string * json)) (k : string) : bool :=
  match dict_get d k with Some _ => true | None => false end.

(** [d[k]] *)
Definition dict_getitem (d : list (string * json)) (k : string) : result json :=
  match dict_get d k with Some v => Ok v | None => Raise KeyError end.

(** [obj.get(k, default)]: only a dict has the method. *)
Definition py_get (obj : json) (k : string) (default : json) : result json :=
  match obj with
  | JDict d => Ok (match dict_get d k with Some v => v | None => default end)
  | _ => Raise AttributeError
  end.

(** [bool(v)] *)
Definition truthy (v : json) : bool :=
  match v with
  | JNull => false
  | JBool b => b
  | JNum z => negb (z =? 0)
  | JStr s => negb (String.eqb s EmptyString)
  | JList l => match l with [] => false | _ => true end
  | JDict d => match d with [] => false | _ => true end
  end.

(** [v is not None] *)
Definition is_not_None (v : json) : bool :=
  match v with JNull => false | _ => true end.

Fixpoint chars (s : string) : list json :=
  match s with
  | EmptyString => []
  | String c rest => JStr (String c EmptyString) :: chars rest
  end.

(** What [for x in v] walks through: the elements of a list, the keys of a
    dict, the characters of a string; anything else is not iterable. *)
Definition py_iter (v : json) : result (list json) :=
  match v with
  | JList l => Ok l
  | JDict d => Ok (map (fun kv => JStr (fst kv)) d)
  | JStr s => Ok (chars s)
  | _ => Raise TypeError
  end.

(** [len(v)] *)
Definition py_len (v : json) : result nat :=
  match v with
  | JList l => Ok (List.length l)
  | JDict d => Ok (List.length d)
  | JStr s => Ok (String.length s)
  | _ => Raise TypeError
  end.

(** [v[0]] *)
Definition py_first (v : json) : result json :=
  match v with
  | JList (x :: _) => Ok x
  | JList [] => Raise IndexError
  | JStr (String c _) => Ok (JStr (String c EmptyString))
  | JStr EmptyString => Raise IndexError
  | JDict _ => Raise KeyError
  | _ => Raise TypeError
  end.

(** [str(n)] of an integer: its decimal digits, with a sign when negative. *)
Definition py_str (n : Z) : string := NilZero.string_of_int (Z.to_int n).

(** [sub in s] on strings: [sub] occurs in [s]. *)
Fixpoint str_contains (sub s : string) : bool :=
  if prefix sub s then true
  else match s with
       | EmptyString => false
       | String _ rest => str_contains sub rest
       end.

(** [sub in v], [sub] being a string: a substring test on a string, an
    element test on a list (a string equals only a string), a key test on a
    dict; nothing else is a container. *)
Definition py_str_in (sub : string) (v : json) : result bool :=
  match v with
  | JStr s => Ok (str_contains sub s)
  | JList l =>
      Ok (existsb (fun x => match x with
                            | JStr t => String.eqb sub t
                            | _ => false
                            end) l)
  | JDict d => Ok (dict_contains d sub)
  | _ => Raise TypeError
  end.

(* ------------------------------------------------------------------ *)
(** ** Response normaliser: [extract_from_wrapper] *)

Definition extract_from_wrapper (data : json) (key : string) : result json :=
  match data with
  | JList items =>
      extracted <- mapM_result (fun item => py_get item key item) items ;;
      ret (JList extracted)
  | JDict d =>
      let plural_key := String.append key "s" in
      if dict_contains d plural_key then dict_getitem d plural_key
      else if dict_contains d key then
        v <- dict_getitem d key ;; ret (JList [v])
      else ret (JList [data])
  | _ => ret (JList [])
  end.

(* ------------------------------------------------------------------ *)
(** ** Player results: [_extract_player_results] *)

(** The dict literal [{'member_id': .., 'name': .., 'gross_score': ..}]. *)
Record PlayerResult : Type := mkPlayerResult {
  member_id : json;
  name : json;
  gross_score : json
}.

(** One turn of the loop body: the result to append, if the item is kept. *)
Definition extract_player (player : json) : result (option PlayerResult) :=
  member_id <- py_get player "member_id" JNull ;;
  member_name <- py_get player "name" JNull ;;
  totals <- py_get player "totals" (JDict []) ;;
  gross_scores <- py_get totals "gross_scores" (JDict []) ;;
  gross_score <- py_get gross_scores "total" JNull ;;
  if truthy member_id && truthy member_name && is_not_None gross_score
  then ret (Some (mkPlayerResult member_id member_name gross_score))
  else ret None.

Fixpoint _extract_player_results (individual_results : list json)
  : result (list PlayerResult) :=
  match individual_results with
  | [] => Ok []
  | player :: rest =>
      kept <- extract_player player ;;
      results <- _extract_player_results rest ;;
      ret (match kept with Some r => r :: results | None => results end)
  end.

(* ------------------------------------------------------------------ *)
(** ** Sorting as Python sorts

    [sorted] and [list.sort] are stable and compare with [<] only.  For a
    comparison that is a strict weak order the stable sorted arrangement of
    a list is unique ([sort_by_unique] below), so the straight insertion
    sort written here returns the list Python's merge sort returns. *)

Section StableSort.
Variables (A T : Type) (key : A -> T) (lt : T -> T -> bool).

Fixpoint insert_sorted (x : A) (l : list A) : list A :=
  match l with
  | [] => [x]
  | y :: rest =>
      if lt (key y) (key x) then y :: insert_sorted x rest
      else x :: y :: rest
  end.

Definition sort_by (l : list A) : list A := fold_right insert_sorted [] l.

(** [x] may stand before [y]: [y]'s key is not below [x]'s. *)
Definition not_after (x y : A) : Prop := lt (key y) (key x) = false.

(** [x] and [y] tie: neither key is below the other. *)
Definition same_rank (x y : A) : bool :=
  negb (lt (key x) (key y)) && negb (lt (key y) (key x)).

End StableSort.

(** [sorted(scores)] on integer scores. *)
Definition py_sorted (l : list Z) : list Z := sort_by (fun z => z) Z.ltb l.

(** [sum(l)]: accumulates from 0, left to right. *)
Definition py_sum (l : list Z) : Z := fold_left Z.add l 0.

(** [n / d] with [d = len(..)].  Python returns the double nearest to the
    quotient, and raises [OverflowError] when the quotient lies beyond the
    range of the doubles.  The model keeps the quotient itself: it stands for
    that double as long as the operands are integers a double holds, which
    stroke counts are; what is stated of the stored value is stated for
    scores in that range ([scores_in_range] below). *)
Definition true_div (n : Z) (d : nat) : result Q :=
  match d with
  | O => Raise ZeroDivisionError
  | S _ => Ok (n # Pos.of_nat d)
  end.

Definition Qlt_bool (x y : Q) : bool := negb (Qle_bool y x).

(* ------------------------------------------------------------------ *)
(** ** Leaderboard calculator: [calculate_leaderboard] *)

(** A value of [player_data]: [{'name': .., 'scores': [..]}]. *)
Record PlayerRecord (N S : Type) : Type := mkPlayerRecord {
  player_name : N;
  scores : list S
}.

(** The tuple [(name, avg_best_5, num_rounds, best_5)]. *)
Record LeaderboardEntry (N : Type) : Type := mkEntry {
  entry_name : N;
  avg_best_5 : Q;
  num_rounds : nat;
  best_5 : list Z
}.

Section Calculator.
(** The calculator never looks at a key or a name: both stay abstract.  A
    dict is walked in insertion order, hence the association list. *)
Variables K N : Type.

Fixpoint leaderboard_loop (items : list (K * PlayerRecord N Z))
  (min_rounds : Z) (leaderboard : list (LeaderboardEntry N))
  : result (list (LeaderboardEntry N)) :=
  match items with
  | [] => Ok leaderboard
  | (member_id, data) :: rest =>
      let scores := scores data in
      let num_rounds := List.length scores in
      if Z.of_nat num_rounds <? min_rounds
      then leaderboard_loop rest min_rounds leaderboard
      else
        let best_5 := firstn 5 (py_sorted scores) in
        avg_best_5 <- true_div (py_sum best_5) (List.length best_5) ;;
        leaderboard_loop rest min_rounds
          (leaderboard ++
             [mkEntry (player_name data) avg_best_5 num_rounds best_5])
  end.

Definition calculate_leaderboard (player_data : list (K * PlayerRecord N Z))
  (min_rounds : Z) : result (list (LeaderboardEntry N)) :=
  leaderboard <- leaderboard_loop player_data min_rounds [] ;;
  ret (sort_by (@avg_best_5 N) Qlt_bool leaderboard).

(** [len(scores) >= min_rounds] *)
Definition qualifies (min_rounds : Z) (kv : K * PlayerRecord N Z) : bool :=
  min_rounds <=? Z.of_nat (List.length (scores (snd kv))).

(** [e] is the tuple the loop appends for the record [kv]. *)
Definition produced_from (kv : K * PlayerRecord N Z) (e : LeaderboardEntry N)
  : Prop :=
  entry_name e = player_name (snd kv)
  /\ num_rounds e = List.length (scores (snd kv))
  /\ best_5 e = firstn 5 (py_sorted (scores (snd kv)))
  /\ true_div (py_sum (best_5 e)) (List.length (best_5 e)) = Ok (avg_best_5 e).

(** Scores permuted record by record, names kept. *)
Definition same_up_to_order (kv kv' : K * PlayerRecord N Z) : Prop :=
  player_name (snd kv) = player_name (snd kv')
  /\ Permutation (scores (snd kv)) (scores (snd kv')).

End Calculator.

Arguments qualifies {K N} min_rounds kv.
Arguments produced_from {K N} kv e.
Arguments same_up_to_order {K N} kv kv'.

(** [MIN_ROUNDS] *)
Definition MIN_ROUNDS : Z := 5.

(* ------------------------------------------------------------------ *)
(** ** The accumulating player map

    [defaultdict(lambda: {'name': '', 'scores': []})] keyed by member id.
    A key is what hashing leaves of a JSON value: [True] and [1] are one
    key, a list or a dict has no hash. *)

Inductive dict_key : Type :=
| KNone
| KInt (z : Z)
| KStr (s : string).

Definition dict_key_eqb (a b : dict_key) : bool :=
  match a, b with
  | KNone, KNone => true
  | KInt x, KInt y => x =? y
  | KStr s, KStr t => String.eqb s t
  | _, _ => false
  end.

Definition hash_key (v : json) : result dict_key :=
  match v with
  | JNull => Ok KNone
  | JBool b => Ok (KInt (if b then 1 else 0))
  | JNum z => Ok (KInt z)
  | JStr s => Ok (KStr s)
  | JList _ | JDict _ => Raise TypeError
  end.

Definition player_map : Type := list (dict_key * PlayerRecord json json).

Fixpoint has_key (k : dict_key) (pd : player_map) : bool :=
  match pd with
  | [] => false
  | (k', _) :: rest => dict_key_eqb k k' || has_key k rest
  end.

(** [player_data[k]] as a read: a missing key is inserted, last, with the
    default record. *)
Definition touch (k : dict_key) (pd : player_map) : player_map :=
  if has_key k pd then pd
  else pd ++ [(k, mkPlayerRecord (JStr "") [])].

(** Mutation of the record stored under [k]. *)
Fixpoint update (k : dict_key)
  (f : PlayerRecord json json -> PlayerRecord json json) (pd : player_map)
  : player_map :=
  match pd with
  | [] => []
  | (k', r) :: rest =>
      if dict_key_eqb k k' then (k', f r) :: rest
      else (k', r) :: update k f rest
  end.

Definition set_name (v : json) (r : PlayerRecord json json) :=
  mkPlayerRecord v (scores r).

Definition append_score (v : json) (r : PlayerRecord json json) :=
  mkPlayerRecord (player_name r) (scores r ++ [v]).

(* ------------------------------------------------------------------ *)
(** ** State and exceptions *)

(** A computation over a mutable state [S] that may raise; the state at
    the raise is kept. *)
Definition SE (S A : Type) : Type := S -> result A * S.

#[global] Instance Monad_SE (S : Type) : Monad (SE S) :=
  {| ret := fun _ a s => (Ok a, s);
     bind := fun _ _ m k s =>
       match m s with
       | (Ok a, s') => k a s'
       | (Raise e, s') => (Raise e, s')
       end |}.

Definition lift {S A : Type} (r : result A) : SE S A := fun s => (r, s).

(** [try: body except Exception as e: handler] *)
Definition try_except {S A : Type} (body : SE S A) (handler : exn -> SE S A)
  : SE S A :=
  fun s =>
    match body s with
    | (Ok a, s') => (Ok a, s')
    | (Raise e, s') => handler e s'
    end.

(** [for x in xs: body] *)
Fixpoint for_each {S A : Type} (xs : list A) (body : A -> SE S unit)
  : SE S unit :=
  match xs with
  | [] => ret tt
  | x :: rest => body x ;; for_each rest body
  end.

(* ------------------------------------------------------------------ *)
(** ** The upstream API and the resource resolvers *)

(** The five endpoints [make_api_request] is called with, each with the ids
    its path is formatted from. *)
Inductive endpoint : Type :=
| Seasons
| Events (season_id : json)
| EventRounds (event_id : json)
| RoundTournaments (event_id round_id : json)
| TournamentResults (event_id round_id tournament_id : json).

(** The state of one run of [fetch_all_scores]: the outside world and the
    collector's own [player_data]. *)
Record run_state (W : Type) : Type := mkState {
  world : W;
  player_data : player_map
}.

(** How [get_season_id] ends: with the id of a season, with the
    [ValueError] it raises itself when no season matches, or with an
    exception of the request or of the walk through the response. *)
Inductive season_lookup : Type :=
| SeasonFound (season_id : json)
| SeasonNotFound
| SeasonFailed (e : exn).

(** Lines 105-113: the loop over the seasons and the [raise] after it. *)
Fixpoint find_season (year : Z) (seasons : list json) : season_lookup :=
  match seasons with
  | [] => SeasonNotFound
  | season :: rest =>
      match py_get season "name" (JStr "") with
      | Raise e => SeasonFailed e
      | Ok season_name =>
          match py_str_in (py_str year) season_name with
          | Raise e => SeasonFailed e
          | Ok true =>
              match py_get season "id" JNull with
              | Ok season_id => SeasonFound season_id
              | Raise e => SeasonFailed e
              end
          | Ok false => find_season year rest
          end
      end
  end.

Section Collector.
(** The network: a request answers with parsed JSON or raises, and may
    change the world (two requests to one endpoint need not agree). *)
Variable W : Type.
Variable http_get : endpoint -> SE W json.

(** The [except] clause of [make_api_request] prints and re-raises. *)
Definition make_api_request (e : endpoint) : SE W json :=
  try_except (http_get e) (fun err => lift (Raise err)).

Definition get_season_id (year : Z) : W -> season_lookup * W :=
  fun w =>
    match (data <- make_api_request Seasons ;;
           seasons <- lift (extract_from_wrapper data "season") ;;
           lift (py_iter seasons)) w with
    | (Ok items, w') => (find_season year items, w')
    | (Raise e, w') => (SeasonFailed e, w')
    end.

Definition get_events (season_id : json) : SE W json :=
  data <- make_api_request (Events season_id) ;;
  events <- lift (extract_from_wrapper data "event") ;;
  _ <- lift (py_len events) ;;
  ret events.

Definition get_event_rounds (event_id : json) : SE W json :=
  data <- make_api_request (EventRounds event_id) ;;
  lift (extract_from_wrapper data "round").

Fixpoint tournament_ids_loop (tournaments : list json) : result (list json) :=
  match tournaments with
  | [] => Ok []
  | tournament :: rest =>
      event <- py_get tournament "event" (JDict []) ;;
      tournament_id <- py_get event "id" JNull ;;
      tournament_ids <- tournament_ids_loop rest ;;
      ret (if truthy tournament_id then tournament_id :: tournament_ids
           else tournament_ids)
  end.

Definition get_tournament_ids (event_id round_id : json) : SE W (list json) :=
  data <- make_api_request (RoundTournaments event_id round_id) ;;
  tournaments <- lift (extract_from_wrapper data "tournament") ;;
  items <- lift (py_iter tournaments) ;;
  lift (tournament_ids_loop items).

(** [results.extend(_extract_player_results(individual_results))] for the
    [individual_results] of one aggregate. *)
Definition aggregate_results (aggregate : json) : result (list PlayerResult) :=
  individual_results <- py_get aggregate "individual_results" (JList []) ;;
  items <- py_iter individual_results ;;
  _extract_player_results items.

Fixpoint aggregates_loop (aggregates : list json) : result (list PlayerResult) :=
  match aggregates with
  | [] => Ok []
  | aggregate :: rest =>
      here <- aggregate_results aggregate ;;
      later <- aggregates_loop rest ;;
      ret (here ++ later)
  end.

Fixpoint scopes_loop (scopes : list json) : result (list PlayerResult) :=
  match scopes with
  | [] => Ok []
  | scope :: rest =>
      aggregates <- py_get scope "aggregates" (JDict []) ;;
      here <- match aggregates with
              | JList l => aggregates_loop l
              | _ => aggregate_results aggregates
              end ;;
      later <- scopes_loop rest ;;
      ret (here ++ later)
  end.

Definition get_tournament_results (event_id round_id tournament_id : json)
  : SE W (list PlayerResult) :=
  data <- make_api_request (TournamentResults event_id round_id tournament_id) ;;
  events <- lift (extract_from_wrapper data "event") ;;
  event_data <- lift (if truthy events then py_first events
                      else ret (JDict [])) ;;
  scopes <- lift (py_get event_data "scopes" (JList [])) ;;
  items <- lift (py_iter scopes) ;;
  lift (scopes_loop items).

(* ------------------------------------------------------------------ *)
(** ** Score collector: [fetch_all_scores] *)

(** A resolver runs against the world and leaves [player_data] alone. *)
Definition call {A : Type} (m : SE W A) : SE (run_state W) A :=
  fun st =>
    let (r, w) := m (world st) in (r, mkState w (player_data st)).

Definition modify_players (f : player_map -> player_map)
  : SE (run_state W) unit :=
  fun st => (Ok tt, mkState (world st) (f (player_data st))).

(** Lines 294-296: the body of [for result in results]. *)
Definition store_result (result : PlayerResult) : SE (run_state W) unit :=
  let member_id := member_id result in
  k <- lift (hash_key member_id) ;;
  modify_players (fun pd => update k (set_name (name result)) (touch k pd)) ;;
  modify_players
    (fun pd => update k (append_score (gross_score result)) (touch k pd)).

(** Lines 284-305: one tournament, with its two [except] clauses. *)
Definition process_tournament (event_id round_id tournament_id : json)
  : SE (run_state W) unit :=
  try_except
    (results <- call (get_tournament_results event_id round_id tournament_id) ;;
     match results with
     | [] => ret tt
     | _ => for_each results store_result
     end)
    (fun _ => ret tt).

(** Lines 277-312: one round, once its id is read. *)
Definition process_round (event_id round_id : json) : SE (run_state W) unit :=
  try_except
    (tournament_ids <- call (get_tournament_ids event_id round_id) ;;
     for_each tournament_ids (process_tournament event_id round_id))
    (fun _ => ret tt).

(** Lines 274-312: the loop over the rounds of one event. *)
Definition rounds_loop (event_id : json) (rounds : list json)
  : SE (run_state W) unit :=
  for_each rounds (fun round_data =>
    round_id <- lift (py_get round_data "id" JNull) ;;
    process_round event_id round_id).

Definition process_event (event : json) : SE (run_state W) unit :=
  event_id <- lift (py_get event "id" JNull) ;;
  _ <- lift (py_get event "name" (JStr "")) ;;
  rounds <- call (get_event_rounds event_id) ;;
  _ <- lift (py_len rounds) ;;
  items <- lift (py_iter rounds) ;;
  rounds_loop event_id items.

Definition fetch_all_scores (season_id : json) : SE (run_state W) player_map :=
  modify_players (fun _ => []) ;;
  events <- call (get_events season_id) ;;
  items <- lift (py_iter events) ;;
  for_each items process_event ;;
  fun st => (Ok (player_data st), st).

End Collector.

(* ------------------------------------------------------------------ *)
(** ** Vocabulary of the normaliser and the extraction *)

Definition is_sequence (v : json) : bool :=
  match v with JList _ => true | _ => false end.

Definition is_object (v : json) : bool :=
  match v with JDict _ => true | _ => false end.

(** [obj] is an object and has [k]: the value stored there. *)
Definition field (obj : json) (k : string) : option json :=
  match obj with JDict d => dict_get d k | _ => None end.

(** The normaliser's contract for one element of a sequence, in the words
    of the specification: the nested value if the element is an object
    containing the wrapper key, the element itself otherwise. *)
Definition spec_unwrap (key : string) (item : json) : json :=
  match field item key with Some v => v | None => item end.

(** The nested field path [totals.gross_scores.total] of an item. *)
Definition gross_total (item : json) : option json :=
  match field item "totals" with
  | Some totals =>
      match field totals "gross_scores" with
      | Some gross_scores => field gross_scores "total"
      | None => None
      end
  | None => None
  end.

(** What one item contributes: its three values when all are present, the
    member id and the name are truthy and the total is not null. *)
Definition spec_player_result (item : json) : option PlayerResult :=
  match field item "member_id", field item "name", gross_total item with
  | Some m, Some n, Some g =>
      if truthy m && truthy n && is_not_None g
      then Some (mkPlayerResult m n g) else None
  | _, _, _ => None
  end.

Fixpoint keep_some {A B : Type} (f : A -> option B) (l : list A) : list B :=
  match l with
  | [] => []
  | x :: rest =>
      match f x with
      | Some y => y :: keep_some f rest
      | None => keep_some f rest
      end
  end.

(** An optional field that, when present, is an object. *)
Definition object_if_present (obj : json) (k : string) : bool :=
  match field obj k with Some v => is_object v | None => true end.

(** The shape [_extract_player_results] walks without raising: the item is
    an object, and so are its [totals] and their [gross_scores] when there. *)
Definition well_shaped (item : json) : bool :=
  is_object item && object_if_present item "totals"
  && match field item "totals" with
     | Some totals => object_if_present totals "gross_scores"
     | None => true
     end.

(* ------------------------------------------------------------------ *)
(** ** Vocabulary of the calculator *)

(** The arithmetic mean of a list of scores. *)
Definition spec_mean (l : list Z) : Q :=
  (inject_Z (fold_right Z.add 0%Z l) / inject_Z (Z.of_nat (List.length l)))%Q.

(** The tuple the loop appends for a qualifying record that has a score. *)
Definition entry_for {K N : Type} (kv : K * PlayerRecord N Z)
  : LeaderboardEntry N :=
  let best := firstn 5 (py_sorted (scores (snd kv))) in
  mkEntry (player_name (snd kv))
    (py_sum best # Pos.of_nat (List.length best))
    (List.length (scores (snd kv))) best.

(** No two entries of a leaderboard have the same average. *)
Definition no_ties {N : Type} (lb : list (LeaderboardEntry N)) : Prop :=
  ForallOrdPairs (fun a b => ~ (avg_best_5 a == avg_best_5 b)%Q) lb.

(** The range of scores in which the quotient of line 340 is what the entry
    stores.  The integers up to [2^53] in absolute value are doubles; a sum
    of at most five scores of absolute value at most [score_bound] is one of
    them, and well below: its quotients by 1 to 5 lie where neighbouring
    doubles are [2^-5] apart or closer, so that each of them is stored as the
    double nearest to it, two different ones (at least [1/20] apart) as
    different doubles in the same order, and none is near the end of the
    range, where the division raises [OverflowError]. *)
Definition score_bound : Z := 2 ^ 45.

Definition in_range (x : Z) : Prop := - score_bound <= x <= score_bound.

Definition scores_in_range {K N : Type} (pd : list (K * PlayerRecord N Z))
  : Prop :=
  Forall (fun kv => Forall in_range (scores (snd kv))) pd.

(** An integer that a double holds exactly. *)
Definition exact_as_float (n : Z) : Prop := Z.abs n <= 2 ^ 53.

(* ------------------------------------------------------------------ *)
(** ** Vocabulary of the merge *)

(** [player_data.get(k)] *)
Fixpoint lookup (k : dict_key) (pd : player_map)
  : option (PlayerRecord json json) :=
  match pd with
  | [] => None
  | (k', r) :: rest => if dict_key_eqb k k' then Some r else lookup k rest
  end.

(** The results of a sequence that carry the member id hashing to [k]. *)
Definition has_member (k : dict_key) (r : PlayerResult) : bool :=
  match hash_key (member_id r) with
  | Ok k' => dict_key_eqb k k'
  | Raise _ => false
  end.

Definition results_of (k : dict_key) (rs : list PlayerResult)
  : list PlayerResult :=
  filter (has_member k) rs.

(** Lines 295-296 as one update of the map, [k] being the hashed id. *)
Definition merge_one (k : dict_key) (r : PlayerResult) (pd : player_map)
  : player_map :=
  update k (append_score (gross_score r))
    (touch k (update k (set_name (name r)) (touch k pd))).

Definition merge_all (rs : list PlayerResult) (pd : player_map) : player_map :=
  fold_left
    (fun pd r =>
       match hash_key (member_id r) with
       | Ok k => merge_one k r pd
       | Raise _ => pd
       end) rs pd.

Definition old_scores (old : option (PlayerRecord json json)) : list json :=
  match old with Some r => scores r | None => [] end.

Definition old_name (old : option (PlayerRecord json json)) : json :=
  match old with Some r => player_name r | None => JStr "" end.

(** The record under a key after a merge, from the record that was there
    and the merged results with that key, in the words of the
    specification: scores appended in order, the name of the last one. *)
Definition spec_merged (old : option (PlayerRecord json json))
  (rk : list PlayerResult) : option (PlayerRecord json json) :=
  match old, rk with
  | None, [] => None
  | _, _ =>
      Some (mkPlayerRecord (last (map name rk) (old_name old))
              (old_scores old ++ map gross_score rk))
  end.

(* ------------------------------------------------------------------ *)
(** ** A season with a failing round

    Two events; the tournament list of the first round of the first event
    cannot be fetched.  The world counts the requests made. *)

Definition demo_player (id nm : string) (total : Z) : json :=
  JDict [("member_id", JStr id); ("name", JStr nm);
         ("totals", JDict [("gross_scores", JDict [("total", JNum total)])])]%string.

Definition demo_results (players : list json) : json :=
  JDict [("event",
          JDict [("scopes",
                  JList [JDict [("aggregates",
                                 JList [JDict [("individual_results",
                                                JList players)]])]])])]%string.

Definition demo_response (e : endpoint) : result json :=
  match e with
  | Seasons => Ok (JList [])
  | Events _ =>
      Ok (JList [JDict [("event", JDict [("id", JStr "e1"); ("name", JStr "Open")])];
                 JDict [("event", JDict [("id", JStr "e2"); ("name", JStr "Cup")])]])%string
  | EventRounds (JStr "e1") =>
      Ok (JDict [("rounds", JList [JDict [("id", JStr "r1")];
                                   JDict [("id", JStr "r2")]])])%string
  | EventRounds _ => Ok (JList [JDict [("round", JDict [("id", JStr "r3")])]])%string
  | RoundTournaments _ (JStr "r1") => Raise RequestException
  | RoundTournaments _ (JStr "r2") =>
      Ok (JList [JDict [("event", JDict [("id", JStr "t1")])]])%string
  | RoundTournaments _ _ =>
      Ok (JList [JDict [("event", JDict [("id", JStr "t2")])]])%string
  | TournamentResults _ _ (JStr "t1") =>
      Ok (demo_results [demo_player "a1" "Ann" 72; demo_player "b2" "Bob" 80])
  | TournamentResults _ _ _ =>
      Ok (demo_results [demo_player "a1" "Ann" 75])
  end.

Definition demo_api (e : endpoint) : SE nat json :=
  fun requests => (demo_response e, S requests).

(** The same season, the rounds of the first event listed by their ids
    instead of as objects: [{"rounds": ["r1", "r2"]}]. *)
Definition bare_rounds_response (e : endpoint) : result json :=
  match e with
  | EventRounds (JStr "e1") =>
      Ok (JDict [("rounds", JList [JStr "r1"; JStr "r2"])])%string
  | _ => demo_response e
  end.

Definition bare_rounds_api (e : endpoint) : SE nat json :=
  fun requests => (bare_rounds_response e, S requests).

(* ------------------------------------------------------------------ *)
(** ** Vocabulary of the resolvers *)

(** [sub] occurs in [s]. *)
Definition occurs (sub s : string) : Prop :=
  exists before after : string,
    s = String.append before (String.append sub after).

(** A season the lookup passes over: an object without a name, or with a
    name, a string, in which the digits of the year do not occur. *)
Definition season_passed_over (year : Z) (season : json) : Prop :=
  exists d,
    season = JDict d
    /\ (dict_get d "name" = None
        \/ exists t, dict_get d "name" = Some (JStr t)
                     /\ ~ occurs (py_str year) t).

(** The id a tournament item carries under [event.id], when it has one
    that is truthy. *)
Definition spec_tournament_id (item : json) : option json :=
  match field item "event" with
  | Some event =>
      match field event "id" with
      | Some tournament_id =>
          if truthy tournament_id then Some tournament_id else None
      | None => None
      end
  | None => None
  end.

(** A result with a usable member id and name and a score that is there. *)
Definition valid_result (r : PlayerResult) : bool :=
  truthy (member_id r) && truthy (name r) && is_not_None (gross_score r).

(* ------------------------------------------------------------------ *)
(** ** Vocabulary of the collected map *)

(** A record as the collector leaves it: a usable name, at least one
    score, no score missing. *)
Definition record_ok (r : PlayerRecord json json) : Prop :=
  truthy (player_name r) = true
  /\ scores r <> []
  /\ Forall (fun v => is_not_None v = true) (scores r).

Definition map_ok (pd : player_map) : Prop :=
  NoDup (map fst pd) /\ Forall (fun kv => record_ok (snd kv)) pd.

(** [pd'] continues [pd]: the keys of [pd] keep their places, new keys come
    after them, and the scores of a record only grow at the end. *)
Definition extends (pd pd' : player_map) : Prop :=
  (exists new_keys, map fst pd' = map fst pd ++ new_keys)
  /\ forall k r,
       lookup k pd = Some r ->
       exists r' more,
         lookup k pd' = Some r' /\ scores r' = scores r ++ more.

(** The computation [m] keeps the property [I] of [player_data], whether
    it returns or raises. *)
Definition keeps {W A : Type} (I : player_map -> Prop)
  (m : SE (run_state W) A) : Prop :=
  forall st, I (player_data st) -> I (player_data (snd (m st))).



(* ================================================================== *)
(** * Properties *)

(* ------------------------------------------------------------------ *)
(** ** The response normaliser *)

Lemma py_get_object (d : list (string * json)) (k : string) (default : json) :
  py_get (JDict d) k default
  = Ok (match dict_get d k with Some v => v | None => default end).
Proof. reflexivity. Qed.

Lemma py_get_not_object (v : json) (k : string) (default : json) :
  is_object v = false -> py_get v k default = Raise AttributeError.
Proof. destruct v; simpl; intros H; try reflexivity; discriminate H. Qed.

Lemma mapM_result_ok {A B : Type} (f : A -> result B) (g : A -> B) (l : list A) :
  Forall (fun x => f x = Ok (g x)) l -> mapM_result f l = Ok (map g l).
Proof.
  induction 1 as [|x l Hx _ IH]; simpl; [reflexivity|].
  rewrite Hx, IH. reflexivity.
Qed.

Lemma mapM_result_raise {A B : Type} (f : A -> result B) (e : exn) (l : list A) :
  (forall x, (exists y, f x = Ok y) \/ f x = Raise e) ->
  Exists (fun x => f x = Raise e) l -> mapM_result f l = Raise e.
Proof.
  intros Hf. induction 1 as [x l Hx | x l _ IH]; simpl.
  - rewrite Hx. reflexivity.
  - destruct (Hf x) as [[y Hy] | Hx]; rewrite ?Hy, ?Hx; [|reflexivity].
    rewrite IH. reflexivity.
Qed.

(** C4, as the code has it: on a sequence all of whose elements are objects
    the normaliser returns, in order and without raising, the value under
    the wrapper key for each element that has the key and the element itself
    otherwise; a sequence with an element that is not an object raises
    [AttributeError] instead of keeping that element. *)
Theorem extract_from_wrapper_sequence (items : list json) (key : string) :
  (Forall (fun item => is_object item = true) items ->
   extract_from_wrapper (JList items) key
   = Ok (JList (map (spec_unwrap key) items)))
  /\ (Exists (fun item => is_object item = false) items ->
      extract_from_wrapper (JList items) key = Raise AttributeError).
Proof.
  split; intros H; unfold extract_from_wrapper.
  - rewrite (mapM_result_ok _ (spec_unwrap key)); [reflexivity|].
    eapply Forall_impl; [|exact H].
    intros [| | | | |d]; simpl; intros Hd; try discriminate Hd. reflexivity.
  - rewrite (@mapM_result_raise _ _ _ AttributeError); [reflexivity| |].
    + intros [| | | | |d]; simpl; eauto.
    + eapply Exists_impl; [|exact H].
      intros x Hx. apply py_get_not_object, Hx.
Qed.

(** The scenario of the specification ([[{"event": {"id": 5}}]] with key
    ["event"]) and a sequence the code rejects. *)
Lemma extract_from_wrapper_sequence_witness :
  extract_from_wrapper (JList [JDict [("event"%string, JDict [("id"%string, JNum 5)])]])
    "event"
  = Ok (JList [JDict [("id"%string, JNum 5)]])
  /\ extract_from_wrapper (JList [JStr "x"]) "event" = Raise AttributeError.
Proof.
  split.
  - apply (proj1 (extract_from_wrapper_sequence
                    [JDict [("event"%string, JDict [("id"%string, JNum 5)])]]
                    "event")).
    repeat constructor.
  - apply (proj2 (extract_from_wrapper_sequence [JStr "x"] "event")).
    repeat constructor.
Defined.

(** C4, as stated, fails: a sequence holding a number next to a wrapped
    object is not normalised to the unwrapped values, the call raises. *)
Lemma extract_from_wrapper_sequence_counterexample :
  let raw := JList [JDict [("event"%string, JDict [("id"%string, JNum 5)])]; JNum 7] in
  extract_from_wrapper raw "event" = Raise AttributeError
  /\ extract_from_wrapper raw "event"
     <> Ok (JList [JDict [("id"%string, JNum 5)]; JNum 7]).
Proof. split; [reflexivity | discriminate]. Qed.

(** C5: on an object the normaliser returns the value under the pluralised
    key as it is when that key is present, else the one-element sequence of
    the value under the wrapper key when that is present, else the
    one-element sequence of the object; on a value that is neither a
    sequence nor an object it returns the empty sequence. *)
Theorem extract_from_wrapper_object (data : json) (key : string) :
  (forall d coll, data = JDict d ->
     dict_get d (String.append key "s") = Some coll ->
     extract_from_wrapper data key = Ok coll)
  /\ (forall d v, data = JDict d ->
        dict_get d (String.append key "s") = None -> dict_get d key = Some v ->
        extract_from_wrapper data key = Ok (JList [v]))
  /\ (forall d, data = JDict d ->
        dict_get d (String.append key "s") = None -> dict_get d key = None ->
        extract_from_wrapper data key = Ok (JList [data]))
  /\ (is_sequence data = false -> is_object data = false ->
      extract_from_wrapper data key = Ok (JList [])).
Proof.
  repeat split.
  - intros d coll -> H. simpl. unfold dict_contains, dict_getitem.
    rewrite H. reflexivity.
  - intros d v -> H1 H2. simpl. unfold dict_contains, dict_getitem.
    rewrite H1, H2. reflexivity.
  - intros d -> H1 H2. simpl. unfold dict_contains, dict_getitem.
    rewrite H1, H2. reflexivity.
  - destruct data; simpl; intros H1 H2; try reflexivity; discriminate.
Qed.

(** The scenario [{"events": [{"id":1},{"id":2}]}] with key ["event"], an
    object with the singular key, a bare object and a number. *)
Lemma extract_from_wrapper_object_witness :
  let one := JDict [("id"%string, JNum 1)] in
  let two := JDict [("id"%string, JNum 2)] in
  extract_from_wrapper (JDict [("events"%string, JList [one; two])]) "event"
  = Ok (JList [one; two])
  /\ extract_from_wrapper (JDict [("event"%string, one)]) "event" = Ok (JList [one])
  /\ extract_from_wrapper one "event" = Ok (JList [one])
  /\ extract_from_wrapper (JNum 3) "event" = Ok (JList []).
Proof.
  cbv zeta. split; [|split; [|split]].
  - eapply (proj1 (extract_from_wrapper_object _ "event")); reflexivity.
  - eapply (proj1 (proj2 (extract_from_wrapper_object _ "event"))); reflexivity.
  - eapply (proj1 (proj2 (proj2 (extract_from_wrapper_object _ "event"))));
      reflexivity.
  - eapply (proj2 (proj2 (proj2 (extract_from_wrapper_object _ "event"))));
      reflexivity.
Defined.

(* ------------------------------------------------------------------ *)
(** ** Player-result extraction *)

Lemma extract_player_well_shaped (item : json) :
  well_shaped item = true -> extract_player item = Ok (spec_player_result item).
Proof.
  unfold well_shaped, object_if_present, extract_player, spec_player_result,
    gross_total.
  destruct item as [| | | | |d]; simpl; try discriminate.
  destruct (dict_get d "member_id") as [m|], (dict_get d "name") as [n|],
    (dict_get d "totals") as [[| | | | |t]|];
    simpl; try discriminate;
    try (destruct (dict_get t "gross_scores") as [[| | | | |g]|];
         simpl; try discriminate;
         try (destruct (dict_get g "total") as [x|]; simpl));
    intros _;
    rewrite ?andb_false_r; try reflexivity;
    try (destruct (truthy m); reflexivity).
  all: destruct (truthy m && truthy n && is_not_None x); reflexivity.
Qed.

Lemma extract_player_ill_shaped (item : json) :
  well_shaped item = false -> extract_player item = Raise AttributeError.
Proof.
  unfold well_shaped, object_if_present, extract_player.
  destruct item as [| | | | |d]; simpl; try reflexivity.
  destruct (dict_get d "totals") as [[| | | | |t]|]; simpl;
    try discriminate; try reflexivity.
  destruct (dict_get t "gross_scores") as [[| | | | |g]|]; simpl;
    try discriminate; reflexivity.
Qed.

(** C6, as the code has it: over a list of items that are objects whose
    [totals] and [gross_scores], when present, are objects, the extraction
    returns without raising, in order, [{member_id, name, gross_score}] for
    exactly the items where [member_id] and [name] are present and truthy
    and [totals.gross_scores.total] is present and not null. *)
Theorem extract_player_results_kept (individual_results : list json) :
  Forall (fun item => well_shaped item = true) individual_results ->
  _extract_player_results individual_results
  = Ok (keep_some spec_player_result individual_results).
Proof.
  induction 1 as [|item rest Hitem _ IH]; simpl; [reflexivity|].
  rewrite (extract_player_well_shaped _ Hitem), IH.
  destruct (spec_player_result item); reflexivity.
Qed.

(** Three items: the second has no [gross_scores], the others are kept. *)
Lemma extract_player_results_kept_witness :
  let item (id : string) (totals : json) :=
    JDict [("member_id", JStr id); ("name", JStr "Kim");
           ("totals", totals)]%string in
  let score (z : Z) :=
    JDict [("gross_scores", JDict [("total", JNum z)])]%string in
  _extract_player_results
    [item "a1"%string (score 72); item "b2"%string (JDict []);
     item "c3"%string (score 0)]
  = Ok [mkPlayerResult (JStr "a1") (JStr "Kim") (JNum 72);
        mkPlayerResult (JStr "c3") (JStr "Kim") (JNum 0)].
Proof.
  cbv zeta.
  refine (eq_trans (@extract_player_results_kept _ _) _).
  - repeat constructor.
  - reflexivity.
Defined.

(** C6, as stated, fails twice.  An item with all three values present and
    a total that is not null is dropped when its member id is the empty
    string; and an item whose [totals] is null, which lacks the total, is
    not dropped silently: the call raises. *)
Lemma extract_player_results_counterexample :
  let guest :=
    JDict [("member_id", JStr ""); ("name", JStr "Pat");
           ("totals", JDict [("gross_scores", JDict [("total", JNum 72)])])]%string in
  let broken :=
    JDict [("member_id", JStr "m7"); ("name", JStr "Lee");
           ("totals", JNull)]%string in
  (field guest "member_id" = Some (JStr "")
   /\ field guest "name" = Some (JStr "Pat")
   /\ gross_total guest = Some (JNum 72)
   /\ _extract_player_results [guest] = Ok [])
  /\ (gross_total broken = None
      /\ _extract_player_results [broken] = Raise AttributeError).
Proof. cbv zeta. repeat split. Qed.

(** An item off that shape makes the whole call raise [AttributeError]. *)
Lemma extract_player_results_ill_shaped (individual_results : list json) :
  Exists (fun item => well_shaped item = false) individual_results ->
  _extract_player_results individual_results = Raise AttributeError.
Proof.
  induction 1 as [item rest Hitem | item rest _ IH]; simpl.
  - rewrite (extract_player_ill_shaped _ Hitem). reflexivity.
  - destruct (well_shaped item) eqn:Hw.
    + rewrite (extract_player_well_shaped _ Hw), IH. reflexivity.
    + rewrite (extract_player_ill_shaped _ Hw). reflexivity.
Qed.

(* ------------------------------------------------------------------ *)
(** ** The stable sort *)

Section StableSortFacts.
Variables (A T : Type) (key : A -> T) (lt : T -> T -> bool).

Lemma insert_sorted_perm (x : A) (l : list A) :
  Permutation (x :: l) (insert_sorted key lt x l).
Proof.
  induction l as [|y rest IH]; simpl; [reflexivity|].
  destruct (lt (key y) (key x)); [|reflexivity].
  rewrite perm_swap. apply perm_skip, IH.
Qed.

Lemma sort_by_perm (l : list A) : Permutation l (sort_by key lt l).
Proof.
  induction l as [|x rest IH]; simpl; [reflexivity|].
  rewrite <- insert_sorted_perm. apply perm_skip, IH.
Qed.

Lemma sort_by_length (l : list A) :
  List.length (sort_by key lt l) = List.length l.
Proof. symmetry. apply Permutation_length, sort_by_perm. Qed.

(** Elements that are pairwise equivalent under the order keep their
    places relative to each other. *)
Lemma insert_sorted_filter (p : A -> bool) (x : A) (l : list A) :
  (forall a b, p a = true -> p b = true -> not_after key lt a b) ->
  filter p (insert_sorted key lt x l) = filter p (x :: l).
Proof.
  intros Hp. induction l as [|y rest IH]; [reflexivity|].
  simpl insert_sorted. destruct (lt (key y) (key x)) eqn:Hyx; [|reflexivity].
  change (filter p (y :: insert_sorted key lt x rest))
    with (if p y then y :: filter p (insert_sorted key lt x rest)
          else filter p (insert_sorted key lt x rest)).
  rewrite IH. simpl.
  destruct (p y) eqn:Hy, (p x) eqn:Hx; try reflexivity.
  specialize (Hp x y Hx Hy). unfold not_after in Hp. congruence.
Qed.

Lemma sort_by_stable (p : A -> bool) (l : list A) :
  (forall a b, p a = true -> p b = true -> not_after key lt a b) ->
  filter p (sort_by key lt l) = filter p l.
Proof.
  intros Hp. induction l as [|x rest IH]; [reflexivity|].
  simpl sort_by. rewrite (insert_sorted_filter _ _ _ Hp).
  simpl. rewrite IH. reflexivity.
Qed.

Hypothesis lt_asym : forall a b, lt a b = true -> lt b a = false.
Hypothesis lt_negtrans :
  forall a b c, lt b a = false -> lt c b = false -> lt c a = false.

Lemma insert_sorted_sorted (x : A) (l : list A) :
  StronglySorted (not_after key lt) l ->
  StronglySorted (not_after key lt) (insert_sorted key lt x l).
Proof.
  induction 1 as [|y rest Hrest IH Hy]; simpl.
  - repeat constructor.
  - destruct (lt (key y) (key x)) eqn:Hyx.
    + constructor; [exact IH|].
      rewrite <- insert_sorted_perm. constructor; [|exact Hy].
      apply lt_asym, Hyx.
    + constructor; [constructor; assumption|].
      constructor; [exact Hyx|].
      eapply Forall_impl; [|exact Hy].
      intros z Hz. unfold not_after in *. eapply lt_negtrans; eassumption.
Qed.

Lemma sort_by_sorted (l : list A) : StronglySorted (not_after key lt) (sort_by key lt l).
Proof.
  induction l as [|x rest IH]; simpl; [constructor|].
  apply insert_sorted_sorted, IH.
Qed.

Lemma same_rank_not_after (z a b : A) :
  same_rank key lt z a = true -> same_rank key lt z b = true ->
  not_after key lt a b.
Proof.
  unfold same_rank, not_after.
  rewrite !andb_true_iff, !negb_true_iff. intros [Hza _] [_ Hbz].
  eapply lt_negtrans; eassumption.
Qed.

(** A list has one sorted, stable arrangement: whatever algorithm a stable
    sort runs, this is the list it returns. *)
Lemma stable_sorted_unique (l1 : list A) :
  forall l2,
    Permutation l1 l2 ->
    StronglySorted (not_after key lt) l1 ->
    StronglySorted (not_after key lt) l2 ->
    (forall z, filter (same_rank key lt z) l1 = filter (same_rank key lt z) l2) ->
    l1 = l2.
Proof.
  induction l1 as [|x l1 IH]; intros l2 Hperm Hs1 Hs2 Hstable.
  - apply Permutation_nil in Hperm. congruence.
  - destruct l2 as [|y l2];
      [symmetry in Hperm; apply Permutation_nil in Hperm; discriminate|].
    inversion Hs1 as [|? ? Hs1' Hx]; inversion Hs2 as [|? ? Hs2' Hy]; subst.
    rewrite Forall_forall in Hx, Hy.
    assert (lt (key x) (key x) = false) as Hirr.
    { destruct (lt (key x) (key x)) eqn:E; [|reflexivity].
      rewrite (@lt_asym _ _ E) in E. discriminate. }
    assert (x = y) as <-.
    { assert (In y (x :: l1)) as Hyin
          by (eapply Permutation_in;
              [symmetry; exact Hperm | left; reflexivity]).
      assert (In x (y :: l2)) as Hxin
          by (eapply Permutation_in; [exact Hperm | left; reflexivity]).
      destruct Hyin as [-> | Hyin]; [reflexivity|].
      destruct Hxin as [-> | Hxin]; [reflexivity|].
      specialize (Hx _ Hyin). specialize (Hy _ Hxin).
      unfold not_after in Hx, Hy.
      assert (same_rank key lt x x = true) as Hxx
          by (unfold same_rank; rewrite Hirr; reflexivity).
      assert (same_rank key lt x y = true) as Hxy
          by (unfold same_rank; rewrite Hx, Hy; reflexivity).
      specialize (Hstable x). cbn [filter] in Hstable.
      rewrite Hxx, Hxy in Hstable. congruence. }
    f_equal. apply IH; try assumption.
    + eapply Permutation_cons_inv, Hperm.
    + intros z. specialize (Hstable z). cbn [filter] in Hstable.
      destruct (same_rank key lt z x); congruence.
Qed.

Lemma sort_by_unique (l l' : list A) :
  Permutation l l' ->
  StronglySorted (not_after key lt) l' ->
  (forall z, filter (same_rank key lt z) l' = filter (same_rank key lt z) l) ->
  l' = sort_by key lt l.
Proof.
  intros Hperm Hsorted Hstable. apply stable_sorted_unique.
  - rewrite <- Hperm. apply sort_by_perm.
  - exact Hsorted.
  - apply sort_by_sorted.
  - intros z. rewrite Hstable. symmetry. apply sort_by_stable.
    intros a b. apply same_rank_not_after.
Qed.

End StableSortFacts.

Lemma sorted_adjacent {A : Type} (R : A -> A -> Prop) (d : A) (l : list A) :
  StronglySorted R l ->
  forall i, (S i < List.length l)%nat -> R (nth i l d) (nth (S i) l d).
Proof.
  induction 1 as [|x rest Hrest IH Hx]; simpl; intros i Hi; [lia|].
  destruct i as [|i].
  - destruct rest as [|y rest']; simpl in *; [lia|].
    inversion Hx; assumption.
  - apply IH. lia.
Qed.

Lemma sorted_app_le {A : Type} (R : A -> A -> Prop) (l1 l2 : list A) :
  StronglySorted R (l1 ++ l2) ->
  forall x y, In x l1 -> In y l2 -> R x y.
Proof.
  induction l1 as [|a l1 IH]; simpl; intros Hs x y Hx Hy; [contradiction|].
  inversion Hs as [|? ? Hrest Hall]; subst.
  destruct Hx as [<- | Hx].
  - rewrite Forall_forall in Hall. apply Hall, in_or_app. right. exact Hy.
  - eapply IH; eassumption.
Qed.

Lemma sorted_app_l {A : Type} (R : A -> A -> Prop) (l1 l2 : list A) :
  StronglySorted R (l1 ++ l2) -> StronglySorted R l1.
Proof.
  induction l1 as [|a l1 IH]; simpl; intros Hs; [constructor|].
  inversion Hs as [|? ? Hrest Hall]; subst.
  constructor; [apply IH, Hrest|].
  apply Forall_app in Hall. apply Hall.
Qed.

Lemma sorted_weaken {A : Type} (R R' : A -> A -> Prop) (l : list A) :
  (forall x y, R x y -> R' x y) -> StronglySorted R l -> StronglySorted R' l.
Proof.
  intros HR. induction 1 as [|x rest Hrest IH Hx]; constructor; [exact IH|].
  eapply Forall_impl; [|exact Hx]. intros y. apply HR.
Qed.

(** *** Integers *)

Lemma py_sorted_perm (l : list Z) : Permutation l (py_sorted l).
Proof. apply sort_by_perm. Qed.

Lemma py_sorted_ascending (l : list Z) : StronglySorted Z.le (py_sorted l).
Proof.
  eapply sorted_weaken;
    [|apply (sort_by_sorted (fun z : Z => z) Z.ltb)].
  - intros x y H. unfold not_after in H. lia.
  - intros a b H. lia.
  - intros a b c H1 H2. lia.
Qed.

Lemma ascending_perm_unique (l1 l2 : list Z) :
  StronglySorted Z.le l1 -> StronglySorted Z.le l2 -> Permutation l1 l2 ->
  l1 = l2.
Proof.
  intros H1. revert l2.
  induction H1 as [|x l1 Hl1 IH Hx]; intros l2 H2 Hp.
  - apply Permutation_nil in Hp. congruence.
  - destruct H2 as [|y l2 Hl2 Hy].
    + symmetry in Hp. apply Permutation_nil in Hp. discriminate.
    + assert (x = y) as <-.
      { rewrite Forall_forall in Hx, Hy.
        assert (In y (x :: l1)) as Hyin
            by (eapply Permutation_in;
                [symmetry; exact Hp | left; reflexivity]).
        assert (In x (y :: l2)) as Hxin
            by (eapply Permutation_in; [exact Hp | left; reflexivity]).
        destruct Hyin as [-> | Hyin]; [reflexivity|].
        destruct Hxin as [-> | Hxin]; [reflexivity|].
        specialize (Hx _ Hyin). specialize (Hy _ Hxin). lia. }
      f_equal. apply IH; [exact Hl2|].
      eapply Permutation_cons_inv, Hp.
Qed.

Lemma py_sorted_of_perm (l l' : list Z) :
  Permutation l l' -> py_sorted l = py_sorted l'.
Proof.
  intros Hp. apply ascending_perm_unique; try apply py_sorted_ascending.
  rewrite <- !py_sorted_perm. exact Hp.
Qed.

(* ------------------------------------------------------------------ *)
(** ** The leaderboard calculator *)

Lemma fold_left_add (l : list Z) (a : Z) :
  fold_left Z.add l a = a + fold_right Z.add 0 l.
Proof.
  revert a. induction l as [|x rest IH]; intros a; simpl; [lia|].
  rewrite IH. lia.
Qed.

Lemma py_sum_fold_right (l : list Z) : py_sum l = fold_right Z.add 0 l.
Proof. unfold py_sum. rewrite fold_left_add. lia. Qed.

Lemma true_div_mean (l : list Z) (q : Q) :
  true_div (py_sum l) (List.length l) = Ok q -> (q == spec_mean l)%Q.
Proof.
  unfold true_div, spec_mean. rewrite py_sum_fold_right.
  destruct (List.length l) as [|n] eqn:Hn; [discriminate|].
  intros [= <-]. rewrite Qmake_Qdiv.
  assert (Z.of_nat (S n) = Z.pos (Pos.of_nat (S n))) as -> by lia.
  reflexivity.
Qed.

Lemma true_div_ok (n : Z) (d : nat) :
  (0 < d)%nat -> exists q, true_div n d = Ok q.
Proof. destruct d; [lia|]. intros _. eexists. reflexivity. Qed.

Lemma best_5_length (l : list Z) :
  List.length (firstn 5 (py_sorted l)) = Nat.min 5 (List.length l).
Proof.
  rewrite length_firstn. unfold py_sorted. rewrite sort_by_length. reflexivity.
Qed.

(** [firstn 5 (py_sorted l)] is the [min 5 (len l)] smallest values of [l],
    ascending: with what is left over it makes up [l], and nothing left
    over is below any of them. *)
Lemma best_5_smallest (l : list Z) :
  let best := firstn 5 (py_sorted l) in
  let others := skipn 5 (py_sorted l) in
  StronglySorted Z.le best
  /\ Permutation l (best ++ others)
  /\ (forall x y, In x best -> In y others -> x <= y).
Proof.
  cbv zeta. pose proof (py_sorted_ascending l) as Hs.
  rewrite <- (firstn_skipn 5 (py_sorted l)) in Hs.
  split; [eapply sorted_app_l, Hs|].
  split; [rewrite firstn_skipn; apply py_sorted_perm|].
  apply sorted_app_le, Hs.
Qed.

Lemma score_bound_value : score_bound = 35184372088832.
Proof. reflexivity. Qed.

Lemma sum_in_range (l : list Z) :
  Forall in_range l ->
  Z.abs (fold_right Z.add 0 l) <= Z.of_nat (List.length l) * score_bound.
Proof.
  unfold in_range. rewrite score_bound_value.
  induction 1 as [|x l Hx _ IH]; [simpl; lia|].
  cbn [fold_right List.length]. lia.
Qed.

Lemma best_5_in_range (l : list Z) :
  Forall in_range l -> Forall in_range (firstn 5 (py_sorted l)).
Proof.
  intros H.
  assert (Forall in_range (py_sorted l)) as Hs.
  { apply Forall_forall. intros x Hx. rewrite Forall_forall in H. apply H.
    eapply Permutation_in; [symmetry; apply py_sorted_perm | exact Hx]. }
  rewrite <- (firstn_skipn 5 (py_sorted l)) in Hs.
  apply Forall_app in Hs. apply Hs.
Qed.

(** The sum of the best five scores of a record in range is an integer a
    double holds: the operands of the division of line 340 are exact. *)
Lemma best_5_exact (l : list Z) :
  Forall in_range l -> exact_as_float (py_sum (firstn 5 (py_sorted l))).
Proof.
  intros H. unfold exact_as_float. rewrite py_sum_fold_right.
  pose proof (sum_in_range (best_5_in_range H)) as Hs.
  rewrite best_5_length, score_bound_value in Hs.
  change (2 ^ 53) with 9007199254740992. lia.
Qed.

Lemma scores_in_range_In {K N : Type} (pd : list (K * PlayerRecord N Z))
  (kv : K * PlayerRecord N Z) :
  scores_in_range pd -> In kv pd -> Forall in_range (scores (snd kv)).
Proof.
  unfold scores_in_range. rewrite Forall_forall. intros H Hin. apply H, Hin.
Qed.

Lemma Forall2_combine_In {A B : Type} (R : A -> B -> Prop) (l1 : list A)
  (l2 : list B) (x : A) (y : B) :
  Forall2 R l1 l2 -> In (x, y) (combine l1 l2) -> R x y /\ In x l1.
Proof.
  induction 1 as [|a b l1 l2 Hab _ IH]; simpl; [contradiction|].
  intros [[= <- <-] | H]; [split; [exact Hab | left; reflexivity]|].
  destruct (IH H) as [HR Hin]. split; [exact HR | right; exact Hin].
Qed.

Section CalculatorFacts.
Variables K N : Type.

Local Notation "'record'" := (PlayerRecord N Z).
Local Notation "'entry'" := (LeaderboardEntry N).

Lemma leaderboard_loop_cons (k : K) (data : record) (rest : list (K * record))
  (min_rounds : Z) (acc : list entry) :
  leaderboard_loop ((k, data) :: rest) min_rounds acc
  = if Z.of_nat (List.length (scores data)) <? min_rounds
    then leaderboard_loop rest min_rounds acc
    else
      match true_div (py_sum (firstn 5 (py_sorted (scores data))))
              (List.length (firstn 5 (py_sorted (scores data)))) with
      | Ok avg =>
          leaderboard_loop rest min_rounds
            (acc ++ [mkEntry (player_name data) avg
                       (List.length (scores data))
                       (firstn 5 (py_sorted (scores data)))])
      | Raise e => Raise e
      end.
Proof. reflexivity. Qed.

Lemma qualifies_cons (k : K) (data : record) (min_rounds : Z) :
  qualifies min_rounds (k, data)
  = negb (Z.of_nat (List.length (scores data)) <? min_rounds).
Proof. unfold qualifies. simpl. apply Z.leb_antisym. Qed.

Lemma leaderboard_loop_entries (items : list (K * record)) (min_rounds : Z) :
  forall acc lb,
    leaderboard_loop items min_rounds acc = Ok lb ->
    exists new,
      lb = acc ++ new
      /\ Forall2 produced_from (filter (qualifies min_rounds) items) new.
Proof.
  induction items as [|[k data] rest IH]; intros acc lb H.
  - injection H as <-. exists []. rewrite app_nil_r. split; constructor.
  - rewrite leaderboard_loop_cons in H.
    cbn [filter]. rewrite qualifies_cons.
    destruct (Z.of_nat (List.length (scores data)) <? min_rounds);
      cbn [negb].
    + apply IH, H.
    + destruct (true_div _ _) as [avg|e] eqn:Hdiv; [|discriminate H].
      apply IH in H as (new & -> & Hnew).
      eexists (_ :: new). rewrite <- app_assoc. split; [reflexivity|].
      constructor; [|exact Hnew].
      repeat split. exact Hdiv.
Qed.

(** The loop returns exactly when no qualifying record is empty. *)
Lemma leaderboard_loop_returns (items : list (K * record)) (min_rounds : Z) :
  Forall (fun kv => qualifies min_rounds kv = true -> scores (snd kv) <> [])
    items ->
  forall acc, exists lb, leaderboard_loop items min_rounds acc = Ok lb.
Proof.
  induction 1 as [|[k data] rest Hkv _ IH]; intros acc;
    [exists acc; reflexivity|].
  rewrite leaderboard_loop_cons. rewrite qualifies_cons in Hkv.
  destruct (Z.of_nat (List.length (scores data)) <? min_rounds); [apply IH|].
  destruct (@true_div_ok (py_sum (firstn 5 (py_sorted (scores data))))
              (List.length (firstn 5 (py_sorted (scores data))))) as [q ->].
  - rewrite best_5_length. specialize (Hkv eq_refl). cbn [snd] in Hkv.
    destruct (scores data); [congruence | simpl; lia].
  - apply IH.
Qed.

Lemma leaderboard_loop_raises (items : list (K * record)) (min_rounds : Z) :
  Exists (fun kv => qualifies min_rounds kv = true /\ scores (snd kv) = [])
    items ->
  forall acc, leaderboard_loop items min_rounds acc = Raise ZeroDivisionError.
Proof.
  induction 1 as [[k data] rest [Hq Hempty] | [k data] rest _ IH];
    intros acc; rewrite leaderboard_loop_cons.
  - rewrite qualifies_cons in Hq. cbn [snd] in Hempty.
    destruct (Z.of_nat (List.length (scores data)) <? min_rounds);
      [discriminate|].
    rewrite Hempty. reflexivity.
  - destruct (Z.of_nat (List.length (scores data)) <? min_rounds); [apply IH|].
    destruct (true_div _ _) as [avg|e] eqn:Hdiv; [apply IH|].
    unfold true_div in Hdiv.
    destruct (List.length (firstn 5 (py_sorted (scores data))));
      [injection Hdiv as <-; reflexivity | discriminate].
Qed.

End CalculatorFacts.

Lemma Forall2_In_l {A B : Type} (R : A -> B -> Prop) (l1 : list A)
  (l2 : list B) (x : A) :
  Forall2 R l1 l2 -> In x l1 -> exists y, In y l2 /\ R x y.
Proof.
  induction 1 as [|a b l1 l2 Hab _ IH]; simpl; [contradiction|].
  intros [<- | Hx]; [eauto|].
  destruct (IH Hx) as (y & Hy & Hxy). eauto.
Qed.

Lemma Forall2_In_r {A B : Type} (R : A -> B -> Prop) (l1 : list A)
  (l2 : list B) (y : B) :
  Forall2 R l1 l2 -> In y l2 -> exists x, In x l1 /\ R x y.
Proof.
  induction 1 as [|a b l1 l2 Hab _ IH]; simpl; [contradiction|].
  intros [<- | Hy]; [eauto|].
  destruct (IH Hy) as (x & Hx & Hxy). eauto.
Qed.

Lemma Qlt_bool_asym (a b : Q) : Qlt_bool a b = true -> Qlt_bool b a = false.
Proof.
  unfold Qlt_bool. rewrite negb_true_iff, negb_false_iff, Qle_bool_iff.
  intros H. apply Qlt_le_weak, Qnot_le_lt.
  rewrite <- Qle_bool_iff. congruence.
Qed.

Lemma Qlt_bool_negtrans (a b c : Q) :
  Qlt_bool b a = false -> Qlt_bool c b = false -> Qlt_bool c a = false.
Proof.
  unfold Qlt_bool. rewrite !negb_false_iff, !Qle_bool_iff.
  intros H1 H2. eapply Qle_trans; eassumption.
Qed.

Section LeaderboardClaims.
Variables K N : Type.

Local Notation "'record'" := (PlayerRecord N Z).
Local Notation "'entry'" := (LeaderboardEntry N).

(** What [calculate_leaderboard] returns, in terms of the loop and the sort. *)
Lemma calculate_leaderboard_ok (pd : list (K * record)) (min_rounds : Z)
  (lb : list entry) :
  calculate_leaderboard pd min_rounds = Ok lb ->
  exists entries,
    leaderboard_loop pd min_rounds [] = Ok entries
    /\ lb = sort_by (@avg_best_5 N) Qlt_bool entries
    /\ Forall2 (@produced_from K N) (filter (qualifies min_rounds) pd) entries.
Proof.
  unfold calculate_leaderboard. simpl.
  destruct (leaderboard_loop pd min_rounds []) as [entries|e] eqn:Hloop;
    [|discriminate].
  intros [= <-]. exists entries. repeat split.
  apply leaderboard_loop_entries in Hloop as (new & -> & Hnew). exact Hnew.
Qed.

(** The calculator returns exactly when no qualifying record is empty, and
    raises [ZeroDivisionError] otherwise. *)
Lemma calculate_leaderboard_returns (pd : list (K * record)) (min_rounds : Z) :
  1 <= min_rounds \/ Forall (fun kv => scores (snd kv) <> []) pd ->
  exists lb, calculate_leaderboard pd min_rounds = Ok lb.
Proof.
  intros H. unfold calculate_leaderboard.
  destruct (@leaderboard_loop_returns K N pd min_rounds) with (acc := @nil entry)
    as [entries ->].
  - destruct H as [H | H].
    + apply Forall_forall. intros [k data] _. unfold qualifies. simpl.
      intros Hq Hempty. rewrite Hempty in Hq. simpl in Hq. lia.
    + eapply Forall_impl; [|exact H]. auto.
  - simpl. eauto.
Qed.

(** A qualifying record has its entry in what the calculator returns. *)
Lemma qualifying_record_entry (pd : list (K * record)) (min_rounds : Z)
  (lb : list entry) (kv : K * record) :
  calculate_leaderboard pd min_rounds = Ok lb ->
  In kv pd ->
  min_rounds <= Z.of_nat (List.length (scores (snd kv))) ->
  exists e, In e lb /\ produced_from kv e.
Proof.
  intros H Hin Hq.
  apply calculate_leaderboard_ok in H as (entries & _ & -> & Hent).
  destruct (@Forall2_In_l _ _ _ _ _ kv Hent) as (e & He & Hprod).
  - apply filter_In. split; [exact Hin|]. unfold qualifies. lia.
  - exists e. split; [|exact Hprod].
    eapply Permutation_in; [apply sort_by_perm | exact He].
Qed.

(** C2, as the code has it: when [min_rounds >= 1] or no record has an
    empty score list, the scores being in range, the calculator returns a
    leaderboard, and a record of the map has its entry in it if and only if
    [len(scores) >= min_rounds]: the entries are, up to the final ordering,
    those of exactly the qualifying records, one for each, every entry comes
    from such a record, and a record with fewer scores contributes none. *)
Theorem leaderboard_membership (pd : list (K * record)) (min_rounds : Z) :
  1 <= min_rounds \/ Forall (fun kv => scores (snd kv) <> []) pd ->
  scores_in_range pd ->
  exists lb,
    calculate_leaderboard pd min_rounds = Ok lb
    /\ (exists entries,
          Permutation entries lb
          /\ Forall2 (@produced_from K N)
               (filter (qualifies min_rounds) pd) entries)
    /\ List.length lb = List.length (filter (qualifies min_rounds) pd)
    /\ (forall kv, In kv pd ->
          ((exists e, In e lb /\ produced_from kv e)
           <-> min_rounds <= Z.of_nat (List.length (scores (snd kv)))))
    /\ (forall e, In e lb ->
          exists kv, In kv pd
            /\ min_rounds <= Z.of_nat (List.length (scores (snd kv)))
            /\ produced_from kv e
            /\ exact_as_float (py_sum (best_5 e))).
Proof.
  intros Hpre Hrange.
  destruct (@calculate_leaderboard_returns pd min_rounds Hpre) as [lb Hlb].
  exists lb. split; [exact Hlb|].
  pose proof Hlb as H.
  apply calculate_leaderboard_ok in H as (entries & _ & -> & Hent).
  pose proof (sort_by_perm (@avg_best_5 N) Qlt_bool entries) as Hperm.
  assert (forall e, In e (sort_by (@avg_best_5 N) Qlt_bool entries) ->
            exists kv, In kv pd
              /\ min_rounds <= Z.of_nat (List.length (scores (snd kv)))
              /\ produced_from kv e) as Hfrom.
  { intros e He.
    destruct (@Forall2_In_r _ _ _ _ _ e Hent) as (kv & Hkv & Hprod).
    - eapply Permutation_in; [symmetry; exact Hperm | exact He].
    - apply filter_In in Hkv as [Hin Hq]. exists kv.
      split; [exact Hin|]. split; [|exact Hprod].
      unfold qualifies in Hq. lia. }
  split; [exists entries; split; assumption|].
  split.
  { rewrite sort_by_length. symmetry. eapply Forall2_length, Hent. }
  split.
  - intros kv Hin. split.
    + intros (e & He & _ & Hrounds & _).
      destruct (Hfrom e He) as (kv' & _ & Hq & _ & Hrounds' & _).
      rewrite Hrounds in Hrounds'. rewrite Hrounds'. exact Hq.
    + intros Hq.
      exact (@qualifying_record_entry pd min_rounds _ kv Hlb Hin Hq).
  - intros e He. destruct (Hfrom e He) as (kv & Hin & Hq & Hprod).
    exists kv. repeat (split; [assumption|]).
    destruct Hprod as (_ & _ & -> & _).
    apply best_5_exact, (@scores_in_range_In _ _ _ _ Hrange Hin).
Qed.

(** C3: whenever the calculator returns a leaderboard, every entry's
    average is at most the next entry's, and entries with equal averages
    stand in the order in which the loop appended them, which is the
    iteration order of the qualifying records. *)
Theorem leaderboard_sorted_stable (pd : list (K * record)) (min_rounds : Z)
  (lb : list entry) :
  calculate_leaderboard pd min_rounds = Ok lb ->
  (forall i d, (S i < List.length lb)%nat ->
     (avg_best_5 (nth i lb d) <= avg_best_5 (nth (S i) lb d))%Q)
  /\ exists entries,
       leaderboard_loop pd min_rounds [] = Ok entries
       /\ Forall2 (@produced_from K N) (filter (qualifies min_rounds) pd) entries
       /\ Permutation entries lb
       /\ forall q : Q,
            filter (fun e => Qeq_bool (avg_best_5 e) q) lb
            = filter (fun e => Qeq_bool (avg_best_5 e) q) entries.
Proof.
  intros H. apply calculate_leaderboard_ok in H as (entries & Hloop & -> & Hent).
  split.
  - intros i d Hi.
    pose proof (sort_by_sorted (@avg_best_5 N) Qlt_bool
                  Qlt_bool_asym Qlt_bool_negtrans entries) as Hs.
    pose proof (@sorted_adjacent _ _ d _ Hs i Hi) as Hle.
    unfold not_after, Qlt_bool in Hle.
    rewrite negb_false_iff, Qle_bool_iff in Hle. exact Hle.
  - exists entries.
    split; [exact Hloop|]. split; [exact Hent|]. split.
    + apply sort_by_perm.
    + intros q. apply sort_by_stable.
      intros a b Ha Hb. unfold not_after, Qlt_bool.
      rewrite negb_false_iff, Qle_bool_iff.
      apply Qeq_bool_iff in Ha, Hb. rewrite Ha, Hb. apply Qle_refl.
Qed.

(** C1, as the code has it: when [min_rounds >= 1] or no record has an
    empty score list, the scores being in range, a record with
    [len(scores) >= min_rounds] has an entry whose [best_5] is the
    [min(5, len(scores))] smallest of its scores in ascending order (they and
    the scores left over make up [scores], and no score left over is below
    any of them), and whose average is their arithmetic mean, the quotient
    of a sum that a double holds exactly. *)
Theorem best_5_average (pd : list (K * record)) (min_rounds : Z)
  (kv : K * record) :
  1 <= min_rounds \/ Forall (fun kv => scores (snd kv) <> []) pd ->
  scores_in_range pd ->
  In kv pd ->
  min_rounds <= Z.of_nat (List.length (scores (snd kv))) ->
  exists lb e others,
    calculate_leaderboard pd min_rounds = Ok lb
    /\ In e lb
    /\ entry_name e = player_name (snd kv)
    /\ num_rounds e = List.length (scores (snd kv))
    /\ StronglySorted Z.le (best_5 e)
    /\ Permutation (scores (snd kv)) (best_5 e ++ others)
    /\ (forall x y, In x (best_5 e) -> In y others -> x <= y)
    /\ List.length (best_5 e) = Nat.min 5 (List.length (scores (snd kv)))
    /\ exact_as_float (py_sum (best_5 e))
    /\ (avg_best_5 e == spec_mean (best_5 e))%Q.
Proof.
  intros Hpre Hrange Hin Hq.
  destruct (@calculate_leaderboard_returns pd min_rounds Hpre) as [lb Hlb].
  destruct (@qualifying_record_entry pd min_rounds lb kv Hlb Hin Hq)
    as (e & He & Hname & Hrounds & Hbest & Havg).
  destruct (best_5_smallest (scores (snd kv))) as (Hsorted & Hperm & Hle).
  exists lb, e, (skipn 5 (py_sorted (scores (snd kv)))).
  rewrite Hbest.
  repeat (split; [assumption|]).
  split; [apply best_5_length|].
  split; [apply best_5_exact, (@scores_in_range_In _ _ _ _ Hrange Hin)|].
  rewrite <- Hbest. apply true_div_mean, Havg.
Qed.

Lemma leaderboard_loop_order (pd pd' : list (K * record)) (min_rounds : Z) :
  Forall2 same_up_to_order pd pd' ->
  forall acc,
    leaderboard_loop pd min_rounds acc = leaderboard_loop pd' min_rounds acc.
Proof.
  induction 1 as [|[k data] [k' data'] pd pd' [Hname Hperm] _ IH];
    intros acc; [reflexivity|].
  rewrite !leaderboard_loop_cons. cbn [snd] in Hname, Hperm.
  rewrite <- (@py_sorted_of_perm _ _ Hperm), <- (Permutation_length Hperm),
    <- Hname.
  destruct (Z.of_nat (List.length (scores data)) <? min_rounds); [apply IH|].
  destruct (true_div _ _); [apply IH | reflexivity].
Qed.

(** C7: permuting the score list of any record, of every record even,
    changes nothing in what the calculator does: the two calls end alike;
    whenever the call on the original map returns a leaderboard, a record
    with [len(scores) >= min_rounds] has its entry in it, which is also the
    entry of the permuted record, with the same average; and the calls do
    return, the same leaderboard, when [min_rounds >= 1] or no record has an
    empty score list, the scores being in range. *)
Theorem average_order_independent (pd pd' : list (K * record))
  (min_rounds : Z) :
  Forall2 same_up_to_order pd pd' ->
  calculate_leaderboard pd min_rounds = calculate_leaderboard pd' min_rounds
  /\ (forall lb,
        calculate_leaderboard pd min_rounds = Ok lb ->
        forall kv kv',
          In (kv, kv') (combine pd pd') ->
          min_rounds <= Z.of_nat (List.length (scores (snd kv))) ->
          exists e, In e lb /\ produced_from kv e /\ produced_from kv' e)
  /\ (1 <= min_rounds \/ Forall (fun kv => scores (snd kv) <> []) pd ->
      scores_in_range pd ->
      exists lb,
        calculate_leaderboard pd min_rounds = Ok lb
        /\ calculate_leaderboard pd' min_rounds = Ok lb).
Proof.
  intros H.
  assert (calculate_leaderboard pd min_rounds
          = calculate_leaderboard pd' min_rounds) as Hsame.
  { unfold calculate_leaderboard.
    rewrite (@leaderboard_loop_order pd pd' min_rounds H). reflexivity. }
  split; [exact Hsame|]. split.
  - intros lb Hlb kv kv' Hpair Hq.
    pose proof (@Forall2_combine_In _ _ _ _ _ _ _ H Hpair)
      as [[Hname Hperm] Hin].
    destruct (@qualifying_record_entry pd min_rounds lb kv Hlb Hin Hq)
      as (e & He & Hprod).
    exists e. split; [exact He|]. split; [exact Hprod|].
    destruct Hprod as (Hn & Hrounds & Hbest & Hdiv).
    unfold produced_from.
    rewrite <- (@py_sorted_of_perm _ _ Hperm), <- (Permutation_length Hperm),
      <- Hname.
    repeat split; assumption.
  - intros Hpre _.
    destruct (@calculate_leaderboard_returns pd min_rounds Hpre) as [lb Hlb].
    exists lb. split; [exact Hlb|]. rewrite <- Hsame. exact Hlb.
Qed.


End LeaderboardClaims.

(** *** The calculator on concrete seasons *)

(** Scores written out are in range. *)
Ltac scores_in_range_tac :=
  unfold scores_in_range;
  repeat (cbn [snd scores]; first [apply Forall_nil | apply Forall_cons]);
  try (unfold in_range; rewrite score_bound_value; lia).

(** The scenario of the specification: six scores, [min_rounds = 5]. *)
Example leaderboard_six_scores :
  calculate_leaderboard
    [("m1"%string, mkPlayerRecord "Kim"%string [80; 75; 90; 70; 85; 95])]
    MIN_ROUNDS
  = Ok [mkEntry "Kim"%string (400 # 5) 6 [70; 75; 80; 85; 90]]
  /\ (400 # 5 == 80)%Q.
Proof. split; reflexivity. Qed.

Lemma best_5_average_witness :
  let kim := ("m1"%string, mkPlayerRecord "Kim"%string [80; 75; 90; 70; 85; 95]) in
  exists lb e others,
    calculate_leaderboard [kim] 5 = Ok lb
    /\ In e lb
    /\ entry_name e = player_name (snd kim)
    /\ num_rounds e = List.length (scores (snd kim))
    /\ StronglySorted Z.le (best_5 e)
    /\ Permutation (scores (snd kim)) (best_5 e ++ others)
    /\ (forall x y, In x (best_5 e) -> In y others -> x <= y)
    /\ List.length (best_5 e) = Nat.min 5 (List.length (scores (snd kim)))
    /\ exact_as_float (py_sum (best_5 e))
    /\ (avg_best_5 e == spec_mean (best_5 e))%Q.
Proof.
  cbv zeta. apply best_5_average.
  - left. lia.
  - scores_in_range_tac.
  - left. reflexivity.
  - simpl. lia.
Defined.

(** C1, as stated, fails for a [min_rounds] below 5: with [min_rounds = 3]
    a record of three scores qualifies, and its [best_5] holds three values,
    not five, the average being the mean of those three. *)
Lemma best_5_average_counterexample :
  let kim := mkPlayerRecord "Kim"%string [72; 70; 71] in
  3 <= Z.of_nat (List.length (scores kim))
  /\ calculate_leaderboard [("m1"%string, kim)] 3
     = Ok [mkEntry "Kim"%string (213 # 3) 3 [70; 71; 72]]
  /\ List.length (best_5 (mkEntry "Kim"%string (213 # 3) 3 [70; 71; 72]))
     <> 5%nat.
Proof. cbv zeta. split; [simpl; lia|]. split; [reflexivity | discriminate]. Qed.

(** One record with six scores, one with two ([[72, 75]], excluded at
    [min_rounds = 5]): only the first has an entry. *)
Lemma leaderboard_membership_witness :
  let kim := ("m1"%string, mkPlayerRecord "Kim"%string [80; 75; 90; 70; 85; 95]) in
  let lee := ("m2"%string, mkPlayerRecord "Lee"%string [72; 75]) in
  exists lb,
    calculate_leaderboard [kim; lee] 5 = Ok lb
    /\ (exists e, In e lb /\ produced_from kim e)
    /\ ~ (exists e, In e lb /\ produced_from lee e)
    /\ List.length lb = 1%nat.
Proof.
  cbv zeta.
  destruct (@leaderboard_membership string string
              [("m1"%string, mkPlayerRecord "Kim"%string [80; 75; 90; 70; 85; 95]);
               ("m2"%string, mkPlayerRecord "Lee"%string [72; 75])] 5)
    as (lb & Hlb & _ & Hlen & Hiff & _).
  - left. lia.
  - scores_in_range_tac.
  - exists lb. split; [exact Hlb|]. split; [|split].
    + apply Hiff; [left; reflexivity | simpl; lia].
    + intros He. apply Hiff in He; [simpl in He; lia|].
      right. left. reflexivity.
    + exact Hlen.
Defined.

(** C2, as stated, fails for a [min_rounds] below 1: with [min_rounds = 0]
    and a record without scores in the map, the record with six scores has
    [len(scores) >= min_rounds] and yet no entry: the call raises
    [ZeroDivisionError] at the empty record and returns no leaderboard. *)
Lemma leaderboard_membership_counterexample :
  let guest := ("m0"%string, mkPlayerRecord "Guest"%string (@nil Z)) in
  let kim := ("m1"%string, mkPlayerRecord "Kim"%string [80; 75; 90; 70; 85; 95]) in
  0 <= Z.of_nat (List.length (scores (snd kim)))
  /\ calculate_leaderboard [guest; kim] 0 = Raise ZeroDivisionError
  /\ calculate_leaderboard [kim; guest] 0 = Raise ZeroDivisionError.
Proof. cbv zeta. split; [simpl; lia|]. split; reflexivity. Qed.

(** Three players, two of them tied at 70: the better average comes first,
    the tied ones keep the order of the map. *)
Lemma leaderboard_sorted_stable_witness :
  let pd := [("m1"%string, mkPlayerRecord "Ann"%string [70; 70; 70; 70; 70]);
             ("m2"%string, mkPlayerRecord "Bob"%string [60; 61; 59; 60; 60]);
             ("m3"%string, mkPlayerRecord "Cyd"%string [65; 75; 70; 72; 68])] in
  let lb := [mkEntry "Bob"%string (300 # 5) 5 [59; 60; 60; 60; 61];
             mkEntry "Ann"%string (350 # 5) 5 [70; 70; 70; 70; 70];
             mkEntry "Cyd"%string (350 # 5) 5 [65; 68; 70; 72; 75]] in
  calculate_leaderboard pd 5 = Ok lb
  /\ (forall i d, (S i < List.length lb)%nat ->
        (avg_best_5 (nth i lb d) <= avg_best_5 (nth (S i) lb d))%Q).
Proof.
  cbv zeta. split; [reflexivity|].
  match goal with
  | |- forall i d, (S i < List.length ?lb)%nat -> _ =>
      exact (proj1 (@leaderboard_sorted_stable string string
                      [("m1"%string, mkPlayerRecord "Ann"%string [70; 70; 70; 70; 70]);
                       ("m2"%string, mkPlayerRecord "Bob"%string [60; 61; 59; 60; 60]);
                       ("m3"%string, mkPlayerRecord "Cyd"%string [65; 75; 70; 72; 68])]
                      5 lb eq_refl))
  end.
Defined.

(** Three scores in two orders: one entry, the same for both, average 71. *)
Lemma average_order_independent_witness :
  let kim := ("m1"%string, mkPlayerRecord "Kim"%string [72; 70; 71]) in
  let kim' := ("m1"%string, mkPlayerRecord "Kim"%string [70; 71; 72]) in
  let lb := [mkEntry "Kim"%string (213 # 3) 3 [70; 71; 72]] in
  calculate_leaderboard [kim] 2 = Ok lb
  /\ calculate_leaderboard [kim'] 2 = Ok lb
  /\ exists e, In e lb /\ produced_from kim e /\ produced_from kim' e.
Proof.
  cbv zeta.
  destruct (@average_order_independent string string
              [("m1"%string, mkPlayerRecord "Kim"%string [72; 70; 71])]
              [("m1"%string, mkPlayerRecord "Kim"%string [70; 71; 72])] 2)
    as (Hsame & Hentry & _).
  - constructor; [|constructor].
    split; [reflexivity|]. simpl.
    exact (perm_trans (perm_swap 70 72 [71]) (perm_skip 70 (perm_swap 71 72 []))).
  - split; [reflexivity|]. split; [rewrite <- Hsame; reflexivity|].
    apply (Hentry _ eq_refl _ _ (or_introl eq_refl)). simpl. lia.
Defined.


(* ------------------------------------------------------------------ *)
(** ** The player map under merging *)

Lemma dict_key_eqb_eq (a b : dict_key) : dict_key_eqb a b = true <-> a = b.
Proof.
  destruct a, b; simpl; split; intros H; try discriminate; try reflexivity.
  - apply Z.eqb_eq in H. congruence.
  - injection H as ->. apply Z.eqb_refl.
  - apply String.eqb_eq in H. congruence.
  - injection H as ->. apply String.eqb_refl.
Qed.

Lemma dict_key_eqb_refl (a : dict_key) : dict_key_eqb a a = true.
Proof. apply dict_key_eqb_eq. reflexivity. Qed.

Lemma dict_key_eqb_neq (a b : dict_key) : dict_key_eqb a b = false <-> a <> b.
Proof.
  rewrite <- dict_key_eqb_eq. destruct (dict_key_eqb a b); split; congruence.
Qed.

Lemma has_key_lookup (k : dict_key) (pd : player_map) :
  has_key k pd = match lookup k pd with Some _ => true | None => false end.
Proof.
  induction pd as [|[k' r] rest IH]; simpl; [reflexivity|].
  destruct (dict_key_eqb k k'); simpl; [reflexivity | exact IH].
Qed.

Lemma has_key_In (k : dict_key) (pd : player_map) :
  has_key k pd = true <-> In k (map fst pd).
Proof.
  induction pd as [|[k' r] rest IH]; simpl; [split; [discriminate | tauto]|].
  rewrite orb_true_iff, IH, dict_key_eqb_eq. intuition congruence.
Qed.

Lemma lookup_app (k : dict_key) (pd pd' : player_map) :
  lookup k (pd ++ pd')
  = match lookup k pd with Some r => Some r | None => lookup k pd' end.
Proof.
  induction pd as [|[k' r] rest IH]; simpl; [reflexivity|].
  destruct (dict_key_eqb k k'); [reflexivity | exact IH].
Qed.

Lemma lookup_update (k k' : dict_key)
  (f : PlayerRecord json json -> PlayerRecord json json) (pd : player_map) :
  lookup k' (update k f pd)
  = if dict_key_eqb k' k then option_map f (lookup k pd) else lookup k' pd.
Proof.
  induction pd as [|[k0 r] rest IH]; simpl.
  - destruct (dict_key_eqb k' k); reflexivity.
  - destruct (dict_key_eqb k k0) eqn:Hk0; simpl.
    + apply dict_key_eqb_eq in Hk0. subst k0.
      destruct (dict_key_eqb k' k); reflexivity.
    + rewrite IH. destruct (dict_key_eqb k' k) eqn:Hk.
      * apply dict_key_eqb_eq in Hk. subst k'. rewrite Hk0. reflexivity.
      * reflexivity.
Qed.

Lemma lookup_touch (k k' : dict_key) (pd : player_map) :
  lookup k' (touch k pd)
  = match lookup k' pd with
    | Some r => Some r
    | None => if dict_key_eqb k' k then Some (mkPlayerRecord (JStr "") [])
              else None
    end.
Proof.
  unfold touch. rewrite has_key_lookup.
  destruct (lookup k pd) as [r|] eqn:Hk.
  - destruct (lookup k' pd) as [r'|] eqn:Hk'; [reflexivity|].
    destruct (dict_key_eqb k' k) eqn:E; [|reflexivity].
    apply dict_key_eqb_eq in E. congruence.
  - rewrite lookup_app. simpl. destruct (lookup k' pd); reflexivity.
Qed.

Lemma keys_update (k : dict_key)
  (f : PlayerRecord json json -> PlayerRecord json json) (pd : player_map) :
  map fst (update k f pd) = map fst pd.
Proof.
  induction pd as [|[k0 r] rest IH]; simpl; [reflexivity|].
  destruct (dict_key_eqb k k0); simpl; [reflexivity | f_equal; exact IH].
Qed.

Lemma keys_touch (k : dict_key) (pd : player_map) :
  map fst (touch k pd) = map fst pd ++ (if has_key k pd then [] else [k]).
Proof.
  unfold touch. destruct (has_key k pd).
  - rewrite app_nil_r. reflexivity.
  - rewrite map_app. reflexivity.
Qed.

Lemma NoDup_snoc {A : Type} (l : list A) (x : A) :
  NoDup l -> ~ In x l -> NoDup (l ++ [x]).
Proof.
  intros Hl Hx. apply NoDup_app; [exact Hl | repeat constructor; simpl; tauto |].
  intros y Hy [<- | []]. contradiction.
Qed.

Lemma lookup_In (k : dict_key) (r : PlayerRecord json json) (pd : player_map) :
  NoDup (map fst pd) -> (In (k, r) pd <-> lookup k pd = Some r).
Proof.
  induction pd as [|[k0 r0] rest IH]; simpl; intros Hnd.
  - split; [contradiction | discriminate].
  - inversion Hnd as [|? ? Hnot Hrest]; subst.
    destruct (dict_key_eqb k k0) eqn:E.
    + apply dict_key_eqb_eq in E. subst k0. split.
      * intros [[= ->] | Hin]; [reflexivity|].
        exfalso. apply Hnot. apply (in_map fst) in Hin. exact Hin.
      * intros [= ->]. left. reflexivity.
    + apply dict_key_eqb_neq in E. rewrite <- (IH Hrest). split.
      * intros [[= -> ->] | Hin]; [congruence | exact Hin].
      * intros Hin. right. exact Hin.
Qed.

Lemma lookup_merge_one (k k' : dict_key) (r : PlayerResult) (pd : player_map) :
  lookup k' (merge_one k r pd)
  = if dict_key_eqb k' k
    then Some (mkPlayerRecord (name r)
                 (old_scores (lookup k pd) ++ [gross_score r]))
    else lookup k' pd.
Proof.
  unfold merge_one. destruct (dict_key_eqb k' k) eqn:E.
  - apply dict_key_eqb_eq in E. subst k'.
    rewrite lookup_update, dict_key_eqb_refl, lookup_touch, lookup_update,
      dict_key_eqb_refl, lookup_touch, dict_key_eqb_refl.
    destruct (lookup k pd) as [o|]; reflexivity.
  - rewrite lookup_update, E, lookup_touch, lookup_update, E, lookup_touch, E.
    destruct (lookup k' pd); reflexivity.
Qed.

Lemma keys_merge_one (k : dict_key) (r : PlayerResult) (pd : player_map) :
  map fst (merge_one k r pd)
  = map fst pd ++ (if has_key k pd then [] else [k]).
Proof.
  unfold merge_one. rewrite keys_update, keys_touch, keys_update, keys_touch.
  replace (has_key k (update k (set_name (name r)) (touch k pd))) with true.
  - rewrite app_nil_r. reflexivity.
  - symmetry. apply has_key_In. rewrite keys_update, keys_touch.
    destruct (has_key k pd) eqn:E.
    + rewrite app_nil_r. apply has_key_In, E.
    + apply in_or_app. right. left. reflexivity.
Qed.

Lemma NoDup_merge_all (rs : list PlayerResult) :
  forall pd, NoDup (map fst pd) -> NoDup (map fst (merge_all rs pd)).
Proof.
  induction rs as [|r rs IH]; intros pd Hnd; [exact Hnd|].
  simpl. apply IH.
  destruct (hash_key (member_id r)) as [k|e]; [|exact Hnd].
  rewrite keys_merge_one. destruct (has_key k pd) eqn:E.
  - rewrite app_nil_r. exact Hnd.
  - apply NoDup_snoc; [exact Hnd|].
    rewrite <- has_key_In. congruence.
Qed.

Lemma last_cons_default {A : Type} (l : list A) (x d : A) :
  last (x :: l) d = last l x.
Proof.
  revert x d. induction l as [|y l IH]; intros x d; [reflexivity|].
  change (last (x :: y :: l) d) with (last (y :: l) d).
  rewrite (IH y d), (IH y x). reflexivity.
Qed.

Lemma lookup_merge_all (k : dict_key) (rs : list PlayerResult) :
  Forall (fun r => exists kr, hash_key (member_id r) = Ok kr) rs ->
  forall pd,
    lookup k (merge_all rs pd) = spec_merged (lookup k pd) (results_of k rs).
Proof.
  induction 1 as [|r rs [kr Hkr] _ IH]; intros pd.
  - simpl. destruct (lookup k pd) as [[n s]|]; simpl; [|reflexivity].
    rewrite app_nil_r. reflexivity.
  - simpl merge_all. rewrite Hkr, IH, lookup_merge_one.
    unfold results_of. cbn [filter]. unfold has_member at 2. rewrite Hkr.
    fold (results_of k rs).
    destruct (dict_key_eqb k kr) eqn:E; [|reflexivity].
    apply dict_key_eqb_eq in E. subst kr.
    unfold spec_merged. cbn [map old_scores old_name player_name scores].
    rewrite last_cons_default, <- app_assoc.
    destruct (lookup k pd), (results_of k rs); reflexivity.
Qed.

Lemma for_each_store_result (W : Type) (rs : list PlayerResult) :
  Forall (fun r => exists kr, hash_key (member_id r) = Ok kr) rs ->
  forall (w : W) (pd : player_map),
    for_each rs (@store_result W) (mkState w pd)
    = (Ok tt, mkState w (merge_all rs pd)).
Proof.
  induction 1 as [|r rs [kr Hkr] _ IH]; intros w pd; [reflexivity|].
  simpl merge_all. rewrite Hkr, <- IH.
  cbn [for_each]. unfold store_result at 1. simpl. rewrite Hkr. reflexivity.
Qed.

(** A result whose member id has no hash stops the loop with [TypeError],
    nothing of that result being stored. *)
Lemma store_result_unhashable (W : Type) (r : PlayerResult)
  (st : run_state W) (e : exn) :
  hash_key (member_id r) = Raise e ->
  store_result r st = (Raise TypeError, st).
Proof.
  intros H. unfold store_result. simpl.
  destruct (member_id r); simpl in *; try discriminate; reflexivity.
Qed.

Lemma merge_all_app (rs1 rs2 : list PlayerResult) (pd : player_map) :
  merge_all (rs1 ++ rs2) pd = merge_all rs2 (merge_all rs1 pd).
Proof. apply fold_left_app. Qed.

Lemma results_of_nonempty (k : dict_key) (rs : list PlayerResult) :
  results_of k rs <> [] <->
  exists r, In r rs /\ hash_key (member_id r) = Ok k.
Proof.
  split.
  - intros Hne. destruct (results_of k rs) as [|r rest] eqn:E; [congruence|].
    assert (In r (results_of k rs)) as Hin by (rewrite E; left; reflexivity).
    apply filter_In in Hin as [Hin Hk]. exists r. split; [exact Hin|].
    unfold has_member in Hk.
    destruct (hash_key (member_id r)) as [k'|]; [|discriminate].
    apply dict_key_eqb_eq in Hk. congruence.
  - intros (r & Hin & Hk) Hempty.
    assert (In r (results_of k rs)) as Hr.
    { apply filter_In. split; [exact Hin|]. unfold has_member.
      rewrite Hk. apply dict_key_eqb_refl. }
    rewrite Hempty in Hr. contradiction.
Qed.

(** The loops over the results of successive tournaments store what one
    loop over all the results, in order, stores. *)
Lemma for_each_tournament (W : Type) (rss : list (list PlayerResult)) :
  Forall (Forall (fun r => exists kr, hash_key (member_id r) = Ok kr)) rss ->
  forall (w : W) (pd : player_map),
    for_each rss (fun results => for_each results (@store_result W))
      (mkState w pd)
    = (Ok tt, mkState w (merge_all (List.concat rss) pd)).
Proof.
  induction 1 as [|rs rss Hrs _ IH]; intros w pd; [reflexivity|].
  cbn [for_each List.concat]. simpl.
  rewrite (for_each_store_result Hrs), IH, merge_all_app. reflexivity.
Qed.

(** C8: merging the results of successive tournaments, member ids being
    hashable, into an empty map completes and leaves one record per distinct
    member id; the record's scores are the gross scores of the results with
    that id, in the order met and with repetitions, and its name is the name
    of the last of them. *)
Theorem score_collector_merge (W : Type) (w : W)
  (rss : list (list PlayerResult)) :
  Forall (Forall (fun r => exists kr, hash_key (member_id r) = Ok kr)) rss ->
  exists pd,
    for_each rss (fun results => for_each results (@store_result W))
      (mkState w [])
    = (Ok tt, mkState w pd)
    /\ NoDup (map fst pd)
    /\ (forall k, In k (map fst pd) <->
                  exists r, In r (List.concat rss) /\ hash_key (member_id r) = Ok k)
    /\ (forall k rec, In (k, rec) pd ->
          results_of k (List.concat rss) <> []
          /\ scores rec = map gross_score (results_of k (List.concat rss))
          /\ player_name rec
             = last (map name (results_of k (List.concat rss))) (JStr "")).
Proof.
  intros Hrss. exists (merge_all (List.concat rss) []).
  assert (Forall (fun r => exists kr, hash_key (member_id r) = Ok kr)
            (List.concat rss)) as Hrs.
  { clear w. induction Hrss as [|rs rss Hrs _ IH]; simpl; [constructor|].
    apply Forall_app. split; assumption. }
  assert (NoDup (map fst (merge_all (List.concat rss) []))) as Hnd
      by (apply NoDup_merge_all; constructor).
  assert (forall k, lookup k (merge_all (List.concat rss) [])
                    = spec_merged None (results_of k (List.concat rss))) as Hlook
      by (intros k; apply (lookup_merge_all k Hrs [])).
  split; [apply for_each_tournament, Hrss|].
  split; [exact Hnd|]. split.
  - intros k. rewrite <- results_of_nonempty, <- has_key_In, has_key_lookup.
    rewrite Hlook. unfold spec_merged.
    destruct (results_of k (List.concat rss)); split; congruence.
  - intros k rec Hin. apply (lookup_In _ _ _ Hnd) in Hin.
    rewrite Hlook in Hin. unfold spec_merged in Hin.
    destruct (results_of k (List.concat rss)) as [|r rest]; [discriminate|].
    injection Hin as <-. split; [discriminate|]. split; reflexivity.
Qed.

(** Two tournaments, three results, two of one member: the map after the
    merge. *)
Example merge_three_results :
  for_each
    [[mkPlayerResult (JStr "a1") (JStr "Ann") (JNum 72);
      mkPlayerResult (JStr "b2") (JStr "Bob") (JNum 80)];
     [mkPlayerResult (JStr "a1") (JStr "Ann B.") (JNum 75)]]
    (fun results => for_each results (@store_result unit)) (mkState tt [])
  = (Ok tt,
     mkState tt
       [(KStr "a1", mkPlayerRecord (JStr "Ann B.") [JNum 72; JNum 75]);
        (KStr "b2", mkPlayerRecord (JStr "Bob") [JNum 80])]).
Proof. reflexivity. Qed.

Lemma score_collector_merge_witness :
  let rss := [[mkPlayerResult (JStr "a1") (JStr "Ann") (JNum 72);
               mkPlayerResult (JStr "b2") (JStr "Bob") (JNum 80)];
              [mkPlayerResult (JStr "a1") (JStr "Ann B.") (JNum 75)]] in
  exists pd,
    for_each rss (fun results => for_each results (@store_result unit))
      (mkState tt [])
    = (Ok tt, mkState tt pd)
    /\ NoDup (map fst pd)
    /\ (forall k, In k (map fst pd) <->
                  exists r, In r (List.concat rss) /\ hash_key (member_id r) = Ok k)
    /\ (forall k rec, In (k, rec) pd ->
          results_of k (List.concat rss) <> []
          /\ scores rec = map gross_score (results_of k (List.concat rss))
          /\ player_name rec
             = last (map name (results_of k (List.concat rss))) (JStr "")).
Proof.
  cbv zeta. apply score_collector_merge.
  repeat constructor; eexists; reflexivity.
Defined.

(* ------------------------------------------------------------------ *)
(** ** Failure isolation in the collector *)

Lemma try_except_continue {S : Type} (body : SE S unit) (st : S) :
  try_except body (fun _ => ret tt) st = (Ok tt, snd (body st)).
Proof.
  unfold try_except. destruct (body st) as [[[]|e] st']; reflexivity.
Qed.

Lemma for_each_next {S A : Type} (body : A -> SE S unit) (x : A)
  (xs : list A) (st st' : S) :
  body x st = (Ok tt, st') ->
  for_each (x :: xs) body st = for_each xs body st'.
Proof. intros H. simpl. rewrite H. reflexivity. Qed.

Lemma for_each_total {S A : Type} (body : A -> SE S unit) (xs : list A) :
  (forall x st, In x xs -> fst (body x st) = Ok tt) ->
  forall st, fst (for_each xs body st) = Ok tt.
Proof.
  induction xs as [|x xs IH]; intros Hbody st; [reflexivity|].
  simpl. pose proof (Hbody x st (or_introl eq_refl)) as Hx.
  destruct (body x st) as [[[]|e] st']; simpl in Hx; [|discriminate].
  apply IH. intros y st0 Hy. apply Hbody. right. exact Hy.
Qed.

Section CollectorFacts.
Variable W : Type.
Variable http_get : endpoint -> SE W json.

Lemma process_tournament_caught (event_id round_id tournament_id : json)
  (st : run_state W) :
  fst (process_tournament http_get event_id round_id tournament_id st) = Ok tt.
Proof.
  unfold process_tournament. rewrite try_except_continue.
  reflexivity.
Qed.

Lemma process_tournament_fetch_fails (event_id round_id tournament_id : json)
  (st : run_state W) (e : exn) (w' : W) :
  get_tournament_results http_get event_id round_id tournament_id (world st)
  = (Raise e, w') ->
  process_tournament http_get event_id round_id tournament_id st
  = (Ok tt, mkState w' (player_data st)).
Proof.
  intros H. unfold process_tournament. rewrite try_except_continue.
  unfold call. simpl. rewrite H. reflexivity.
Qed.

Lemma process_round_caught (event_id round_id : json) (st : run_state W) :
  fst (process_round http_get event_id round_id st) = Ok tt.
Proof.
  unfold process_round. rewrite try_except_continue. reflexivity.
Qed.

Lemma process_round_fetch_fails (event_id round_id : json)
  (st : run_state W) (e : exn) (w' : W) :
  get_tournament_ids http_get event_id round_id (world st) = (Raise e, w') ->
  process_round http_get event_id round_id st
  = (Ok tt, mkState w' (player_data st)).
Proof.
  intros H. unfold process_round. rewrite try_except_continue.
  unfold call. simpl. rewrite H. reflexivity.
Qed.

Lemma rounds_loop_cons (event_id : json) (d : list (string * json))
  (rounds : list json) (st : run_state W) :
  rounds_loop http_get event_id (JDict d :: rounds) st
  = rounds_loop http_get event_id rounds
      (snd (process_round http_get event_id
              (match dict_get d "id" with Some v => v | None => JNull end)
              st)).
Proof.
  unfold rounds_loop. cbn [for_each]. simpl.
  pose proof (process_round_caught event_id
                (match dict_get d "id" with Some v => v | None => JNull end)
                st) as H.
  destruct (process_round _ _ _ _) as [[[]|e] st']; simpl in H;
    [reflexivity | discriminate].
Qed.

(** The id of a round is read before the [try] (the handler prints it):
    an item that is not an object, which [get_event_rounds] is not meant to
    return, stops the loop with [AttributeError]. *)
Lemma rounds_loop_not_object (event_id round_data : json)
  (rounds : list json) (st : run_state W) :
  is_object round_data = false ->
  rounds_loop http_get event_id (round_data :: rounds) st
  = (Raise AttributeError, st).
Proof.
  intros H. unfold rounds_loop. cbn [for_each]. simpl.
  rewrite (py_get_not_object _ _ _ H). reflexivity.
Qed.

(** So is the id of an event. *)
Lemma events_loop_not_object (event : json) (events : list json)
  (st : run_state W) :
  is_object event = false ->
  for_each (event :: events) (process_event http_get) st
  = (Raise AttributeError, st).
Proof.
  intros H. cbn [for_each]. unfold process_event. simpl.
  rewrite (py_get_not_object _ _ _ H). reflexivity.
Qed.

Lemma rounds_loop_total (event_id : json) (rounds : list json) :
  Forall (fun round_data => is_object round_data = true) rounds ->
  forall st, fst (rounds_loop http_get event_id rounds st) = Ok tt.
Proof.
  induction 1 as [|round_data rounds Hobj _ IH]; intros st; [reflexivity|].
  destruct round_data; try discriminate Hobj.
  rewrite rounds_loop_cons. apply IH.
Qed.

Lemma process_event_returns (d : list (string * json)) (rounds : json)
  (items : list json) (st : run_state W) (w' : W) :
  get_event_rounds http_get
    (match dict_get d "id" with Some v => v | None => JNull end) (world st)
  = (Ok rounds, w') ->
  py_iter rounds = Ok items ->
  Forall (fun round_data => is_object round_data = true) items ->
  fst (process_event http_get (JDict d) st) = Ok tt.
Proof.
  intros Hrounds Hiter Hobj. unfold process_event, call. simpl.
  rewrite Hrounds. unfold lift.
  destruct rounds; simpl in Hiter; try discriminate Hiter;
    injection Hiter as <-; simpl; apply rounds_loop_total, Hobj.
Qed.

(** C9, as the code has it: no exception leaves the handling of a
    tournament, so the loop goes on with the next tournament, and when the
    fetch of its results raises the map is as it was; no exception leaves
    the [try] of a round, which an item that is an object reaches, so the
    loop goes on with the next round, and when the fetch of its tournament
    ids raises the round stores nothing: the map is as it was and the rounds
    after it are processed from there; a loop over rounds that are objects
    ends without raising, and so does the handling of an event that is an
    object and whose rounds could be listed and are objects: the events
    after it are processed too.  The ids are read outside the [try]: a round
    item that is not an object raises [AttributeError] out of the loop over
    the rounds, with the rounds after it left alone, and an event item that
    is not an object does so out of the loop over the events. *)
Theorem failure_isolation :
  (forall event_id round_id tournament_id tournament_ids st,
     exists st',
       process_tournament http_get event_id round_id tournament_id st
       = (Ok tt, st')
       /\ for_each (tournament_id :: tournament_ids)
            (process_tournament http_get event_id round_id) st
          = for_each tournament_ids
              (process_tournament http_get event_id round_id) st'
       /\ (forall e w',
             get_tournament_results http_get event_id round_id tournament_id
               (world st) = (Raise e, w') ->
             st' = mkState w' (player_data st)))
  /\ (forall event_id d rounds st,
        let round_id :=
          match dict_get d "id" with Some v => v | None => JNull end in
        exists st',
          process_round http_get event_id round_id st = (Ok tt, st')
          /\ rounds_loop http_get event_id (JDict d :: rounds) st
             = rounds_loop http_get event_id rounds st'
          /\ (forall e w',
                get_tournament_ids http_get event_id round_id (world st)
                = (Raise e, w') ->
                st' = mkState w' (player_data st)))
  /\ (forall event_id rounds st,
        Forall (fun round_data => is_object round_data = true) rounds ->
        fst (rounds_loop http_get event_id rounds st) = Ok tt)
  /\ (forall d rounds items st w' events,
        get_event_rounds http_get
          (match dict_get d "id" with Some v => v | None => JNull end)
          (world st) = (Ok rounds, w') ->
        py_iter rounds = Ok items ->
        Forall (fun round_data => is_object round_data = true) items ->
        exists st',
          process_event http_get (JDict d) st = (Ok tt, st')
          /\ for_each (JDict d :: events) (process_event http_get) st
             = for_each events (process_event http_get) st')
  /\ (forall event_id round_data rounds st,
        is_object round_data = false ->
        rounds_loop http_get event_id (round_data :: rounds) st
        = (Raise AttributeError, st))
  /\ (forall event events st,
        is_object event = false ->
        for_each (event :: events) (process_event http_get) st
        = (Raise AttributeError, st)).
Proof.
  split; [|split; [|split; [|split; [|split]]]].
  - intros event_id round_id tournament_id tournament_ids st.
    pose proof (process_tournament_caught event_id round_id tournament_id st)
      as Hok.
    destruct (process_tournament http_get event_id round_id tournament_id st)
      as [r st'] eqn:Hrun.
    simpl in Hok. subst r. exists st'. split; [reflexivity|]. split.
    + apply for_each_next, Hrun.
    + intros e w' Hfetch.
      rewrite (process_tournament_fetch_fails _ _ _ _ Hfetch) in Hrun.
      congruence.
  - intros event_id d rounds st round_id.
    pose proof (process_round_caught event_id round_id st) as Hok.
    destruct (process_round http_get event_id round_id st) as [r st'] eqn:Hrun.
    simpl in Hok. subst r. exists st'. split; [reflexivity|]. split.
    + rewrite rounds_loop_cons. fold round_id. rewrite Hrun. reflexivity.
    + intros e w' Hfetch.
      rewrite (process_round_fetch_fails _ _ _ Hfetch) in Hrun. congruence.
  - intros event_id rounds st Hobj. apply rounds_loop_total, Hobj.
  - intros d rounds items st w' events Hrounds Hiter Hobj.
    pose proof (process_event_returns d st Hrounds Hiter Hobj) as Hok.
    destruct (process_event http_get (JDict d) st) as [r st'] eqn:Hrun.
    simpl in Hok. subst r. exists st'. split; [reflexivity|].
    apply for_each_next, Hrun.
  - intros event_id round_data rounds st Hobj.
    apply rounds_loop_not_object, Hobj.
  - intros event events st Hobj. apply events_loop_not_object, Hobj.
Qed.

End CollectorFacts.

(** *** The season with a failing round *)

(** The whole run: eight requests, the scores of rounds [r2] and [r3]. *)
Example fetch_all_scores_demo :
  fetch_all_scores demo_api (JStr "s1") (mkState 0%nat [])
  = (Ok [(KStr "a1", mkPlayerRecord (JStr "Ann") [JNum 72; JNum 75]);
         (KStr "b2", mkPlayerRecord (JStr "Bob") [JNum 80])],
     mkState 8%nat
       [(KStr "a1", mkPlayerRecord (JStr "Ann") [JNum 72; JNum 75]);
        (KStr "b2", mkPlayerRecord (JStr "Bob") [JNum 80])]).
Proof. vm_compute. reflexivity. Qed.

(** A tournament whose second result has a list for member id: the first
    result is stored, the [TypeError] is caught, the loop over tournaments
    goes on. *)
Example process_tournament_unhashable :
  let api (e : endpoint) : SE unit json :=
    fun w =>
      (Ok (demo_results
             [demo_player "a1" "Ann" 72;
              JDict [("member_id", JList [JStr "b2"]); ("name", JStr "Bob");
                     ("totals",
                      JDict [("gross_scores",
                              JDict [("total", JNum 80)])])]%string]),
       w) in
  process_tournament api (JStr "e1") (JStr "r1") (JStr "t1") (mkState tt [])
  = (Ok tt, mkState tt [(KStr "a1", mkPlayerRecord (JStr "Ann") [JNum 72])]).
Proof. reflexivity. Qed.

(** Round [r1] fails in its tournament-id fetch: the loop over the rounds of
    [e1] goes on with [r2] from an unchanged map. *)
Lemma failure_isolation_witness :
  let r1 := [("id"%string, JStr "r1")] in
  let r2 := JDict [("id"%string, JStr "r2")] in
  let st := mkState 2%nat [] in
  get_tournament_ids demo_api (JStr "e1") (JStr "r1") (world st)
  = (Raise RequestException, 3%nat)
  /\ exists st',
       rounds_loop demo_api (JStr "e1") [JDict r1; r2] st
       = rounds_loop demo_api (JStr "e1") [r2] st'
       /\ st' = mkState 3%nat (player_data st).
Proof.
  cbv zeta. split; [reflexivity|].
  destruct (proj1 (proj2 (failure_isolation demo_api)) (JStr "e1")
              [("id"%string, JStr "r1")] [JDict [("id"%string, JStr "r2")]]
              (mkState 2%nat []))
    as (st' & _ & Hloop & Hfail).
  exists st'. split; [exact Hloop|].
  apply (Hfail RequestException 3%nat). reflexivity.
Defined.

(** C9, as stated, fails for a failure raised while a round is processed
    but before its [try]: when the rounds of the first event come as ids,
    the read of the first round's id raises [AttributeError], which nothing
    catches: the collection ends there, after two requests, and returns no
    map, although the second event, handled alone, yields a score. *)
Lemma failure_isolation_counterexample :
  let st := mkState 2%nat [] in
  fetch_all_scores bare_rounds_api (JStr "s1") (mkState 0%nat [])
  = (Raise AttributeError, st)
  /\ rounds_loop bare_rounds_api (JStr "e1") [JStr "r1"; JStr "r2"] st
     = (Raise AttributeError, st)
  /\ process_event bare_rounds_api
       (JDict [("id", JStr "e2"); ("name", JStr "Cup")])%string st
     = (Ok tt,
        mkState 5%nat [(KStr "a1", mkPlayerRecord (JStr "Ann") [JNum 75])]).
Proof. cbv zeta. split; [|split]; vm_compute; reflexivity. Qed.

(* ================================================================== *)
(** * Further properties of the code *)

(* ------------------------------------------------------------------ *)
(** ** The normaliser on the shapes it was written for *)

Lemma append_s_neq (key : string) : String.eqb (String.append key "s") key = false.
Proof.
  apply String.eqb_neq.
  induction key as [|c key IH]; simpl; [discriminate|].
  intros [= H]. exact (IH H).
Qed.

Lemma mapM_unwrap_wrapped (key : string) (items : list json) :
  mapM_result (fun item => py_get item key item)
    (map (fun x => JDict [(key, x)]) items)
  = Ok items.
Proof.
  induction items as [|x rest IH]; simpl; [reflexivity|].
  rewrite String.eqb_refl. simpl in IH. rewrite IH. reflexivity.
Qed.

(** X1: the three wrappings the API uses for the same items normalise to
    the same sequence: a list of one-field objects [{key: x}], an object
    holding the list under the pluralised key, and, for one item, an object
    holding it under the key. *)
Theorem wrappers_agree (key : string) (items : list json) :
  extract_from_wrapper (JList (map (fun x => JDict [(key, x)]) items)) key
  = Ok (JList items)
  /\ extract_from_wrapper (JDict [(String.append key "s", JList items)]) key
     = Ok (JList items)
  /\ forall x, extract_from_wrapper (JDict [(key, x)]) key = Ok (JList [x]).
Proof.
  split; [|split].
  - unfold extract_from_wrapper. rewrite mapM_unwrap_wrapped. reflexivity.
  - unfold extract_from_wrapper, dict_contains, dict_getitem. simpl.
    rewrite String.eqb_refl. reflexivity.
  - intros x. unfold extract_from_wrapper, dict_contains, dict_getitem. simpl.
    rewrite append_s_neq, String.eqb_refl. reflexivity.
Qed.

(** X2: data that is not wrapped comes through: a list of objects none of
    which has the wrapper key is returned as it is. *)
Theorem unwrapped_list_kept (key : string) (items : list json) :
  Forall (fun item => is_object item = true /\ field item key = None) items ->
  extract_from_wrapper (JList items) key = Ok (JList items).
Proof.
  intros H. unfold extract_from_wrapper.
  rewrite (mapM_result_ok _ (fun x => x)); [rewrite map_id; reflexivity|].
  eapply Forall_impl; [|exact H].
  intros [| | | | |d] [Hobj Hkey]; try discriminate Hobj.
  simpl in *. rewrite Hkey. reflexivity.
Qed.

Lemma unwrapped_list_kept_witness :
  let a := JDict [("id"%string, JNum 1)] in
  let b := JDict [("id"%string, JNum 2); ("name"%string, JStr "Open")] in
  extract_from_wrapper (JList [a; b]) "event" = Ok (JList [a; b]).
Proof.
  cbv zeta. apply unwrapped_list_kept.
  repeat constructor.
Defined.

(* ------------------------------------------------------------------ *)
(** ** What the resolvers hand on *)

Lemma extract_player_valid (player : json) (r : PlayerResult) :
  extract_player player = Ok (Some r) -> valid_result r = true.
Proof.
  unfold extract_player, valid_result.
  destruct player as [| | | | |d]; simpl; try discriminate.
  destruct (match dict_get d "totals" with Some v => v | None => JDict [] end)
    as [| | | | |t]; simpl; try discriminate.
  destruct (match dict_get t "gross_scores" with
            | Some v => v | None => JDict [] end)
    as [| | | | |g]; simpl; try discriminate.
  destruct (truthy _ && truthy _ && is_not_None _) eqn:E; [|discriminate].
  intros [= <-]. exact E.
Qed.

Lemma extract_player_results_valid (individual_results : list json) :
  forall results,
    _extract_player_results individual_results = Ok results ->
    Forall (fun r => valid_result r = true) results.
Proof.
  induction individual_results as [|player rest IH]; simpl; intros results H.
  - injection H as <-. constructor.
  - destruct (extract_player player) as [kept|e] eqn:Hp; [|discriminate].
    destruct (_extract_player_results rest) as [rs|e]; [|discriminate].
    injection H as <-. specialize (IH rs eq_refl).
    destruct kept as [r|]; [|exact IH].
    constructor; [|exact IH]. eapply extract_player_valid, Hp.
Qed.

(** X3: whatever the items, when [_extract_player_results] returns, every
    result it returns has a truthy member id, a truthy name and a gross
    score that is not null, and there are at most as many results as
    items. *)
Theorem extracted_results_valid (individual_results : list json)
  (results : list PlayerResult) :
  _extract_player_results individual_results = Ok results ->
  Forall (fun r => valid_result r = true) results
  /\ (List.length results <= List.length individual_results)%nat.
Proof.
  intros H. split; [eapply extract_player_results_valid, H|].
  revert results H.
  induction individual_results as [|player rest IH]; simpl; intros results H.
  - injection H as <-. simpl. lia.
  - destruct (extract_player player) as [kept|e]; [|discriminate].
    destruct (_extract_player_results rest) as [rs|e]; [|discriminate].
    specialize (IH rs eq_refl). injection H as <-.
    destruct kept; simpl; lia.
Qed.

Lemma extracted_results_valid_witness :
  let items := [demo_player "a1" "Ann" 72; demo_player "" "Guest" 90;
                demo_player "b2" "Bob" 0] in
  let results := [mkPlayerResult (JStr "a1") (JStr "Ann") (JNum 72);
                  mkPlayerResult (JStr "b2") (JStr "Bob") (JNum 0)] in
  Forall (fun r => valid_result r = true) results
  /\ (List.length results <= List.length items)%nat.
Proof.
  cbv zeta.
  apply (@extracted_results_valid
           [demo_player "a1" "Ann" 72; demo_player "" "Guest" 90;
            demo_player "b2" "Bob" 0]).
  reflexivity.
Defined.

Lemma tournament_ids_loop_kept (tournaments : list json) :
  Forall (fun t => is_object t = true /\ object_if_present t "event" = true)
    tournaments ->
  tournament_ids_loop tournaments
  = Ok (keep_some spec_tournament_id tournaments).
Proof.
  induction 1 as [|t rest [Hobj Hev] _ IH]; [reflexivity|].
  cbn [tournament_ids_loop keep_some]. rewrite IH. clear IH.
  destruct t as [| | | | |d]; try discriminate Hobj.
  unfold object_if_present, spec_tournament_id in *. simpl in *.
  destruct (dict_get d "event") as [[| | | | |ev]|]; try discriminate Hev;
    simpl; [|reflexivity].
  destruct (dict_get ev "id") as [tid|]; simpl; [|reflexivity].
  destruct (truthy tid); reflexivity.
Qed.

Lemma aggregate_results_valid (aggregate : json) (rs : list PlayerResult) :
  aggregate_results aggregate = Ok rs ->
  Forall (fun r => valid_result r = true) rs.
Proof.
  unfold aggregate_results. simpl.
  destruct (py_get aggregate "individual_results" (JList [])) as [ir|e];
    [|discriminate].
  destruct (py_iter ir) as [items|e]; [|discriminate].
  intros H. apply (extract_player_results_valid _ H).
Qed.

Lemma aggregates_loop_valid (aggregates : list json) :
  forall rs, aggregates_loop aggregates = Ok rs ->
             Forall (fun r => valid_result r = true) rs.
Proof.
  induction aggregates as [|a rest IH]; simpl; intros rs H.
  - injection H as <-. constructor.
  - destruct (aggregate_results a) as [here|e] eqn:Ha; [|discriminate].
    destruct (aggregates_loop rest) as [later|e]; [|discriminate].
    injection H as <-. apply Forall_app. split.
    + eapply aggregate_results_valid, Ha.
    + apply IH. reflexivity.
Qed.

Lemma scopes_loop_valid (scopes : list json) :
  forall rs, scopes_loop scopes = Ok rs ->
             Forall (fun r => valid_result r = true) rs.
Proof.
  induction scopes as [|scope rest IH]; simpl; intros rs H.
  - injection H as <-. constructor.
  - destruct (py_get scope "aggregates" (JDict [])) as [aggregates|e];
      [|discriminate].
    simpl in H.
    destruct (match aggregates with
              | JList l => aggregates_loop l
              | _ => aggregate_results aggregates
              end) as [here|e] eqn:Hhere; [|discriminate].
    destruct (scopes_loop rest) as [later|e]; [|discriminate].
    injection H as <-. apply Forall_app. split; [|apply IH; reflexivity].
    destruct aggregates;
      try (eapply aggregate_results_valid, Hhere);
      eapply aggregates_loop_valid, Hhere.
Qed.

(** X6: a scope whose [aggregates] is one object gives the results of the
    scope whose [aggregates] is the list of that one object: the two shapes
    of the API are read alike, whatever else the scopes hold. *)
Theorem aggregates_shapes_agree (aggregate : json)
  (d d' : list (string * json)) (scopes : list json) :
  is_sequence aggregate = false ->
  dict_get d "aggregates" = Some aggregate ->
  dict_get d' "aggregates" = Some (JList [aggregate]) ->
  scopes_loop (JDict d :: scopes) = scopes_loop (JDict d' :: scopes).
Proof.
  intros Hnot Hd Hd'. cbn [scopes_loop]. simpl. rewrite Hd, Hd'.
  replace (aggregates_loop [aggregate]) with (aggregate_results aggregate).
  - destruct aggregate; try reflexivity; discriminate Hnot.
  - simpl. destruct (aggregate_results aggregate) as [here|e]; [|reflexivity].
    rewrite app_nil_r. reflexivity.
Qed.

Lemma aggregates_shapes_agree_witness :
  let aggregate :=
    JDict [("individual_results"%string, JList [demo_player "a1" "Ann" 72])] in
  scopes_loop [JDict [("aggregates"%string, aggregate)]]
  = scopes_loop [JDict [("aggregates"%string, JList [aggregate])]].
Proof.
  cbv zeta. apply aggregates_shapes_agree with
    (aggregate := JDict [("individual_results"%string,
                          JList [demo_player "a1" "Ann" 72])]);
    reflexivity.
Defined.

Section ResolverFacts.
Variable W : Type.
Variable http_get : endpoint -> SE W json.

Lemma make_api_request_eq (e : endpoint) (w : W) :
  make_api_request http_get e w = http_get e w.
Proof.
  unfold make_api_request, try_except, lift.
  destruct (http_get e w) as [[data|err] w']; reflexivity.
Qed.

(** X4: when the tournaments of a round come as objects whose [event],
    where present, is an object, [get_tournament_ids] returns, in order, the
    [event.id] of the items that have a truthy one; the other items are
    passed over without an error. *)
Theorem tournament_ids_listed (event_id round_id data : json)
  (tournaments : list json) (w w' : W) :
  http_get (RoundTournaments event_id round_id) w = (Ok data, w') ->
  extract_from_wrapper data "tournament" = Ok (JList tournaments) ->
  Forall (fun t => is_object t = true /\ object_if_present t "event" = true)
    tournaments ->
  get_tournament_ids http_get event_id round_id w
  = (Ok (keep_some spec_tournament_id tournaments), w').
Proof.
  intros Hget Hextract Hshape. unfold get_tournament_ids. simpl.
  rewrite make_api_request_eq, Hget. unfold lift.
  rewrite Hextract. simpl. rewrite (tournament_ids_loop_kept Hshape).
  reflexivity.
Qed.

(** X5: a request that raises makes the resolver raise the same exception,
    with nothing retried: the world is the one the failed request left. *)
Theorem resolvers_propagate (e : exn) (w w' : W) :
  (forall season_id,
     http_get (Events season_id) w = (Raise e, w') ->
     get_events http_get season_id w = (Raise e, w'))
  /\ (forall event_id,
        http_get (EventRounds event_id) w = (Raise e, w') ->
        get_event_rounds http_get event_id w = (Raise e, w'))
  /\ (forall event_id round_id,
        http_get (RoundTournaments event_id round_id) w = (Raise e, w') ->
        get_tournament_ids http_get event_id round_id w = (Raise e, w'))
  /\ (forall event_id round_id tournament_id,
        http_get (TournamentResults event_id round_id tournament_id) w
        = (Raise e, w') ->
        get_tournament_results http_get event_id round_id tournament_id w
        = (Raise e, w'))
  /\ (forall year,
        http_get Seasons w = (Raise e, w') ->
        get_season_id http_get year w = (SeasonFailed e, w')).
Proof.
  repeat split; intros;
    unfold get_events, get_event_rounds, get_tournament_ids,
      get_tournament_results, get_season_id; simpl;
    rewrite make_api_request_eq;
    match goal with H : http_get _ _ = _ |- _ => rewrite H end;
    reflexivity.
Qed.

Lemma tournament_results_from_scopes (event_id round_id tournament_id : json)
  (w w' : W) (results : list PlayerResult) :
  get_tournament_results http_get event_id round_id tournament_id w
  = (Ok results, w') ->
  exists scopes, scopes_loop scopes = Ok results.
Proof.
  unfold get_tournament_results. simpl. rewrite make_api_request_eq.
  destruct (http_get _ w) as [[data|e] w1]; [|discriminate].
  unfold lift.
  destruct (extract_from_wrapper data "event") as [events|e]; [|discriminate].
  destruct (if truthy events then py_first events else _)
    as [event_data|e]; [|discriminate].
  destruct (py_get event_data "scopes" (JList [])) as [scopes|e];
    [|discriminate].
  destruct (py_iter scopes) as [items|e]; [|discriminate].
  destruct (scopes_loop items) as [rs|e] eqn:H; [|discriminate].
  intros [= <- _]. exists items. exact H.
Qed.

(** X7: whatever the API answers, the results [get_tournament_results]
    returns all have a truthy member id, a truthy name and a gross score
    that is not null. *)
Theorem tournament_results_valid (event_id round_id tournament_id : json)
  (w w' : W) (results : list PlayerResult) :
  get_tournament_results http_get event_id round_id tournament_id w
  = (Ok results, w') ->
  Forall (fun r => valid_result r = true) results.
Proof.
  intros H. apply tournament_results_from_scopes in H as [scopes H].
  eapply scopes_loop_valid, H.
Qed.

(** X8: missing pieces give no results and no error: an empty list for a
    response, a response object without [events], [event] and [scopes], a
    scope without [aggregates], an aggregate without
    [individual_results]. *)
Theorem missing_pieces_give_nothing :
  (forall event_id round_id tournament_id w w',
     http_get (TournamentResults event_id round_id tournament_id) w
     = (Ok (JList []), w') ->
     get_tournament_results http_get event_id round_id tournament_id w
     = (Ok [], w'))
  /\ (forall event_id round_id tournament_id d w w',
        http_get (TournamentResults event_id round_id tournament_id) w
        = (Ok (JDict d), w') ->
        dict_get d "events" = None -> dict_get d "event" = None ->
        dict_get d "scopes" = None ->
        get_tournament_results http_get event_id round_id tournament_id w
        = (Ok [], w'))
  /\ (forall d scopes,
        dict_get d "aggregates" = None ->
        scopes_loop (JDict d :: scopes) = scopes_loop scopes)
  /\ (forall d,
        dict_get d "individual_results" = None ->
        aggregate_results (JDict d) = Ok []).
Proof.
  split; [|split; [|split]].
  - intros event_id round_id tournament_id w w' H.
    unfold get_tournament_results. simpl.
    rewrite make_api_request_eq, H. reflexivity.
  - intros event_id round_id tournament_id d w w' H Hevents Hevent Hscopes.
    unfold get_tournament_results. simpl.
    rewrite make_api_request_eq, H. unfold lift.
    assert (extract_from_wrapper (JDict d) "event" = Ok (JList [JDict d]))
      as -> by (unfold extract_from_wrapper, dict_contains; simpl;
                rewrite Hevents, Hevent; reflexivity).
    simpl. rewrite Hscopes. reflexivity.
  - intros d scopes H. cbn [scopes_loop]. simpl. rewrite H. simpl.
    destruct (scopes_loop scopes); reflexivity.
  - intros d H. unfold aggregate_results. simpl. rewrite H. reflexivity.
Qed.

End ResolverFacts.

Lemma tournament_ids_listed_witness :
  let t1 := JDict [("event", JDict [("id", JStr "t1")])]%string in
  let unnamed := JDict [("name", JStr "no event")]%string in
  let blank := JDict [("event", JDict [("id", JStr "")])]%string in
  let t7 := JDict [("event", JDict [("id", JNum 7)])]%string in
  let wrapped := JDict [("tournament"%string, t7)] in
  let api (e : endpoint) : SE nat json :=
    fun w => (Ok (JList [t1; unnamed; blank; wrapped]), S w) in
  get_tournament_ids api (JStr "e1") (JStr "r1") 0%nat
  = (Ok [JStr "t1"; JNum 7], 1%nat).
Proof.
  intros t1 unnamed blank t7 wrapped api.
  apply (@tournament_ids_listed nat api (JStr "e1") (JStr "r1")
           (JList [t1; unnamed; blank; wrapped]) [t1; unnamed; blank; t7]
           0%nat 1%nat).
  - reflexivity.
  - reflexivity.
  - repeat constructor.
Defined.

Lemma tournament_results_valid_witness :
  Forall (fun r => valid_result r = true)
    [mkPlayerResult (JStr "a1") (JStr "Ann") (JNum 72);
     mkPlayerResult (JStr "b2") (JStr "Bob") (JNum 80)].
Proof.
  apply (@tournament_results_valid nat demo_api (JStr "e1") (JStr "r2")
           (JStr "t1") 4%nat 5%nat).
  reflexivity.
Defined.

(* ------------------------------------------------------------------ *)
(** ** What every run of the collector keeps *)

Section Keeps.
Variable W : Type.
Variable I : player_map -> Prop.

Lemma keeps_lift {A : Type} (r : result A) : keeps I (@lift (run_state W) A r).
Proof. intros st H. exact H. Qed.

Lemma keeps_call {A : Type} (m : SE W A) : keeps I (call m).
Proof.
  intros st H. unfold call. destruct (m (world st)) as [r w]. exact H.
Qed.

Lemma keeps_bind {A B : Type} (m : SE (run_state W) A)
  (k : A -> SE (run_state W) B) :
  keeps I m -> (forall a, keeps I (k a)) -> keeps I (bind m k).
Proof.
  intros Hm Hk st H. simpl. specialize (Hm st H).
  destruct (m st) as [[a|e] st']; simpl in *; [apply Hk, Hm | exact Hm].
Qed.

Lemma keeps_try_except {A : Type} (body : SE (run_state W) A)
  (handler : exn -> SE (run_state W) A) :
  keeps I body -> (forall e, keeps I (handler e)) ->
  keeps I (try_except body handler).
Proof.
  intros Hb Hh st H. unfold try_except. specialize (Hb st H).
  destruct (body st) as [[a|e] st']; simpl in *; [exact Hb | apply Hh, Hb].
Qed.

Lemma keeps_for_each {A : Type} (body : A -> SE (run_state W) unit)
  (xs : list A) :
  (forall x, In x xs -> keeps I (body x)) -> keeps I (for_each xs body).
Proof.
  induction xs as [|x xs IH]; intros Hbody; [intros st H; exact H|].
  cbn [for_each]. apply keeps_bind.
  - apply Hbody. left. reflexivity.
  - intros _. apply IH. intros y Hy. apply Hbody. right. exact Hy.
Qed.

Lemma keeps_ret {A : Type} (a : A) : keeps I (ret a : SE (run_state W) A).
Proof. intros st H. exact H. Qed.

End Keeps.

Lemma merge_one_ok (k : dict_key) (r : PlayerResult) (pd : player_map) :
  valid_result r = true -> map_ok pd -> map_ok (merge_one k r pd).
Proof.
  intros Hvalid [Hnd Hall].
  assert (NoDup (map fst (merge_one k r pd))) as Hnd'.
  { rewrite keys_merge_one. destruct (has_key k pd) eqn:E.
    - rewrite app_nil_r. exact Hnd.
    - apply NoDup_snoc; [exact Hnd|]. rewrite <- has_key_In. congruence. }
  split; [exact Hnd'|].
  apply Forall_forall. intros [k' r'] Hin. simpl.
  apply (lookup_In _ _ _ Hnd') in Hin. rewrite lookup_merge_one in Hin.
  unfold valid_result in Hvalid.
  apply andb_true_iff in Hvalid as [Hvalid Hscore].
  apply andb_true_iff in Hvalid as [_ Hname].
  destruct (dict_key_eqb k' k).
  - injection Hin as <-. repeat split; simpl.
    + exact Hname.
    + intros Hnil. apply app_eq_nil in Hnil as [_ Hnil]. discriminate.
    + apply Forall_app. split; [|repeat constructor; exact Hscore].
      destruct (lookup k pd) as [old|] eqn:Hold; simpl; [|constructor].
      apply (lookup_In _ _ _ Hnd) in Hold.
      rewrite Forall_forall in Hall. apply (Hall _ Hold).
  - apply (lookup_In _ _ _ Hnd) in Hin.
    rewrite Forall_forall in Hall. apply (Hall _ Hin).
Qed.

Lemma store_result_state (W : Type) (r : PlayerResult) (st : run_state W) :
  player_data (snd (store_result r st))
  = match hash_key (member_id r) with
    | Ok k => merge_one k r (player_data st)
    | Raise _ => player_data st
    end.
Proof.
  unfold store_result. simpl.
  destruct (hash_key (member_id r)); reflexivity.
Qed.

Lemma store_result_keeps_ok (W : Type) (r : PlayerResult) :
  valid_result r = true -> keeps map_ok (@store_result W r).
Proof.
  intros Hvalid st H. rewrite store_result_state.
  destruct (hash_key (member_id r)); [apply merge_one_ok; assumption | exact H].
Qed.

Lemma extends_refl (pd : player_map) : extends pd pd.
Proof.
  split.
  - exists []. rewrite app_nil_r. reflexivity.
  - intros k r H. exists r, []. rewrite app_nil_r. split; [exact H | reflexivity].
Qed.

Lemma extends_trans (pd1 pd2 pd3 : player_map) :
  extends pd1 pd2 -> extends pd2 pd3 -> extends pd1 pd3.
Proof.
  intros [[n1 Hk1] Hs1] [[n2 Hk2] Hs2]. split.
  - exists (n1 ++ n2). rewrite Hk2, Hk1, app_assoc. reflexivity.
  - intros k r H.
    destruct (Hs1 k r H) as (r2 & m1 & H2 & E1).
    destruct (Hs2 k r2 H2) as (r3 & m2 & H3 & E2).
    exists r3, (m1 ++ m2). split; [exact H3|].
    rewrite E2, E1, app_assoc. reflexivity.
Qed.

Lemma merge_one_extends (k : dict_key) (r : PlayerResult) (pd : player_map) :
  extends pd (merge_one k r pd).
Proof.
  split.
  - rewrite keys_merge_one. eexists. reflexivity.
  - intros k' r0 H. rewrite lookup_merge_one.
    destruct (dict_key_eqb k' k) eqn:E.
    + apply dict_key_eqb_eq in E. subst k'. rewrite H. simpl.
      eexists _, [gross_score r]. split; reflexivity.
    + exists r0, []. rewrite app_nil_r. split; [exact H | reflexivity].
Qed.

Lemma store_result_keeps_extends (W : Type) (pd0 : player_map)
  (r : PlayerResult) :
  keeps (extends pd0) (@store_result W r).
Proof.
  intros st H. rewrite store_result_state.
  destruct (hash_key (member_id r)); [|exact H].
  eapply extends_trans; [exact H | apply merge_one_extends].
Qed.



Section CollectorInvariants.
Variable W : Type.
Variable http_get : endpoint -> SE W json.

(** Handling a tournament keeps [I] when storing a valid result does. *)
Lemma process_tournament_keeps (I : player_map -> Prop)
  (event_id round_id tournament_id : json) :
  (forall r, valid_result r = true -> keeps I (@store_result W r)) ->
  keeps I (process_tournament http_get event_id round_id tournament_id).
Proof.
  intros Hstore. unfold process_tournament.
  apply keeps_try_except; [|intros e; apply keeps_ret].
  intros st H. simpl. unfold call.
  destruct (get_tournament_results http_get event_id round_id tournament_id
              (world st)) as [[results|e] w'] eqn:Hget; simpl; [|exact H].
  assert (Forall (fun r => valid_result r = true) results) as Hvalid.
  { apply tournament_results_from_scopes in Hget as [scopes Hscopes].
    eapply scopes_loop_valid, Hscopes. }
  assert (keeps I (for_each results (@store_result W))) as Hloop.
  { apply keeps_for_each. intros r Hr. apply Hstore.
    rewrite Forall_forall in Hvalid. apply Hvalid, Hr. }
  destruct results as [|r rest]; [exact H|].
  apply (Hloop (mkState w' (player_data st))). exact H.
Qed.

Lemma process_round_keeps (I : player_map -> Prop) (event_id round_id : json) :
  (forall r, valid_result r = true -> keeps I (@store_result W r)) ->
  keeps I (process_round http_get event_id round_id).
Proof.
  intros Hstore. unfold process_round.
  apply keeps_try_except; [|intros e; apply keeps_ret].
  apply keeps_bind; [apply keeps_call|].
  intros ids. apply keeps_for_each. intros t _.
  apply process_tournament_keeps, Hstore.
Qed.

Lemma process_event_keeps (I : player_map -> Prop) (event : json) :
  (forall r, valid_result r = true -> keeps I (@store_result W r)) ->
  keeps I (process_event http_get event).
Proof.
  intros Hstore. unfold process_event.
  apply keeps_bind; [apply keeps_lift|]. intros event_id.
  apply keeps_bind; [apply keeps_lift|]. intros _.
  apply keeps_bind; [apply keeps_call|]. intros rounds.
  apply keeps_bind; [apply keeps_lift|]. intros _.
  apply keeps_bind; [apply keeps_lift|]. intros items.
  unfold rounds_loop. apply keeps_for_each. intros round_data _.
  apply keeps_bind; [apply keeps_lift|]. intros round_id.
  apply process_round_keeps, Hstore.
Qed.

Lemma fetch_all_scores_state (season_id : json) (st : run_state W) :
  snd (fetch_all_scores http_get season_id st)
  = snd ((events <- call (get_events http_get season_id) ;;
          items <- lift (py_iter events) ;;
          for_each items (process_event http_get))
           (mkState (world st) []))
  /\ forall pd,
       fst (fetch_all_scores http_get season_id st) = Ok pd ->
       pd = player_data (snd (fetch_all_scores http_get season_id st)).
Proof.
  unfold fetch_all_scores, modify_players. simpl.
  destruct (call (get_events http_get season_id) _) as [[events|e] st1];
    simpl; [|split; [reflexivity | discriminate]].
  unfold lift.
  destruct (py_iter events) as [items|e]; simpl;
    [|split; [reflexivity | discriminate]].
  destruct (for_each items (process_event http_get) st1) as [[[]|e] st2];
    simpl; split; try reflexivity; try discriminate.
  intros pd [= <-]. reflexivity.
Qed.

Lemma events_pipeline_keeps_ok (season_id : json) :
  keeps map_ok
    (events <- call (get_events http_get season_id) ;;
     items <- lift (py_iter events) ;;
     for_each items (process_event http_get)).
Proof.
  apply keeps_bind; [apply keeps_call|]. intros events.
  apply keeps_bind; [apply keeps_lift|]. intros items.
  apply keeps_for_each. intros event _.
  apply process_event_keeps. intros r. apply store_result_keeps_ok.
Qed.

(** X9: whatever the API answers or raises, the map [fetch_all_scores]
    builds, and returns when it returns, has one record per key, and every
    record has a truthy name, at least one score and no null score. *)
Theorem collected_map_ok (season_id : json) (st : run_state W) :
  map_ok (player_data (snd (fetch_all_scores http_get season_id st)))
  /\ forall pd,
       fst (fetch_all_scores http_get season_id st) = Ok pd -> map_ok pd.
Proof.
  destruct (fetch_all_scores_state season_id st) as [Hstate Hret].
  assert (map_ok (player_data (snd (fetch_all_scores http_get season_id st))))
    as Hok.
  { rewrite Hstate. apply events_pipeline_keeps_ok. simpl.
    split; constructor. }
  split; [exact Hok|].
  intros pd H. rewrite (Hret pd H). exact Hok.
Qed.

(** X10: handling a tournament, a round, an event or a list of events only
    continues the map, whatever the API does: the keys that were there keep
    their places, new keys come after them, and where a record was, there
    still is one, its scores being the old ones followed by the new. *)
Theorem collector_only_appends (st : run_state W) :
  (forall event_id round_id tournament_id,
     extends (player_data st)
       (player_data
          (snd (process_tournament http_get event_id round_id tournament_id
                  st))))
  /\ (forall event_id round_id,
        extends (player_data st)
          (player_data (snd (process_round http_get event_id round_id st))))
  /\ (forall event,
        extends (player_data st)
          (player_data (snd (process_event http_get event st))))
  /\ (forall events,
        extends (player_data st)
          (player_data
             (snd (for_each events (process_event http_get) st)))).
Proof.
  assert (forall r, valid_result r = true ->
                    keeps (extends (player_data st)) (@store_result W r))
    as Hstore by (intros r _; apply store_result_keeps_extends).
  split; [|split; [|split]].
  - intros event_id round_id tournament_id.
    apply (process_tournament_keeps _ _ _ Hstore), extends_refl.
  - intros event_id round_id.
    apply (process_round_keeps _ _ Hstore), extends_refl.
  - intros event. apply (process_event_keeps _ Hstore), extends_refl.
  - intros events.
    apply (@keeps_for_each W (extends (player_data st)) json
             (process_event http_get) events); [|apply extends_refl].
    intros event _. apply process_event_keeps, Hstore.
Qed.


(** X12: listing is not isolated.  When the request for the events
    raises, [fetch_all_scores] raises the same exception; when the request
    for the rounds of an event raises, the loop over the events stops with
    that exception, the events after it are not visited, and
    [fetch_all_scores] raises it instead of returning the scores it has
    collected. *)
Theorem listing_failures_abort (season_id : json) (st : run_state W) :
  (forall e w',
     get_events http_get season_id (world st) = (Raise e, w') ->
     fetch_all_scores http_get season_id st = (Raise e, mkState w' []))
  /\ (forall d events st0 e w',
        get_event_rounds http_get
          (match dict_get d "id" with Some v => v | None => JNull end)
          (world st0) = (Raise e, w') ->
        for_each (JDict d :: events) (process_event http_get) st0
        = (Raise e, mkState w' (player_data st0)))
  /\ (forall events items w1 e st2,
        get_events http_get season_id (world st) = (Ok events, w1) ->
        py_iter events = Ok items ->
        for_each items (process_event http_get) (mkState w1 [])
        = (Raise e, st2) ->
        fetch_all_scores http_get season_id st = (Raise e, st2)).
Proof.
  split; [|split].
  - intros e w' H. unfold fetch_all_scores, modify_players, call. simpl.
    rewrite H. reflexivity.
  - intros d events st0 e w' H. cbn [for_each]. unfold process_event, call.
    simpl. rewrite H. reflexivity.
  - intros events items w1 e st2 Hevents Hiter Hloop.
    unfold fetch_all_scores, modify_players, call. simpl.
    rewrite Hevents. unfold lift. rewrite Hiter. simpl.
    rewrite Hloop. reflexivity.
Qed.

End CollectorInvariants.


(** An API whose second event cannot list its rounds: the scores of the
    first event are in the state, and the call ends with the exception. *)
Lemma listing_failures_abort_witness :
  let api (e : endpoint) : SE nat json :=
    fun w =>
      (match e with
       | EventRounds (JStr "e2") => Raise RequestException
       | _ => demo_response e
       end, S w) in
  fetch_all_scores api (JStr "s1") (mkState 0%nat [])
  = (Raise RequestException,
     mkState 6%nat
       [(KStr "a1", mkPlayerRecord (JStr "Ann") [JNum 72]);
        (KStr "b2", mkPlayerRecord (JStr "Bob") [JNum 80])]).
Proof.
  intros api.
  eapply (proj2 (proj2 (@listing_failures_abort nat api (JStr "s1")
                          (mkState 0%nat [])))).
  - reflexivity.
  - reflexivity.
  - vm_compute. reflexivity.
Defined.

(* ------------------------------------------------------------------ *)
(** ** The season lookup *)

Lemma prefix_append (sub s : string) :
  prefix sub s = true <-> exists rest, s = String.append sub rest.
Proof.
  revert s. induction sub as [|a sub IH]; intros s.
  - split; [intros _; exists s; reflexivity | destruct s; reflexivity].
  - destruct s as [|b s]; simpl;
      [split; [discriminate | intros [rest H]; discriminate]|].
    destruct (ascii_dec a b) as [<- | Hne].
    + rewrite IH. split; intros [rest H]; exists rest; congruence.
    + split; [discriminate|]. intros [rest H]. simpl in H.
      injection H as H _. contradiction (Hne (eq_sym H)).
Qed.

Lemma str_contains_step (sub s : string) :
  str_contains sub s
  = prefix sub s
    || match s with
       | EmptyString => false
       | String _ rest => str_contains sub rest
       end.
Proof.
  destruct s; cbn [str_contains]; destruct (prefix sub _); reflexivity.
Qed.

Lemma str_contains_occurs (sub s : string) :
  str_contains sub s = true <-> occurs sub s.
Proof.
  split.
  - induction s as [|c s IH]; rewrite str_contains_step, orb_true_iff;
      intros [E | H]; try discriminate H.
    + apply prefix_append in E as [rest E]. exists ""%string, rest. exact E.
    + apply prefix_append in E as [rest E]. exists ""%string, rest. exact E.
    + destruct (IH H) as (before & after & ->).
      exists (String c before), after. reflexivity.
  - intros (before & after & ->).
    induction before as [|c before IH]; rewrite str_contains_step, orb_true_iff.
    + left. apply prefix_append. exists after. reflexivity.
    + right. exact IH.
Qed.

Lemma py_str_nonempty (n : Z) : py_str n <> ""%string.
Proof.
  unfold py_str. destruct (Z.to_int n) as [[]|[]]; simpl; discriminate.
Qed.

Lemma find_season_passes (year : Z) (season : json) (rest : list json) :
  season_passed_over year season ->
  find_season year (season :: rest) = find_season year rest.
Proof.
  intros (d & -> & H). cbn [find_season py_get].
  destruct H as [Hname | (t & Hname & Hnot)]; rewrite Hname;
    cbn [py_str_in].
  - assert (str_contains (py_str year) "" = false) as ->; [|reflexivity].
    destruct (str_contains (py_str year) "") eqn:E; [|reflexivity].
    apply str_contains_occurs in E as (before & after & E).
    destruct before; [|discriminate E].
    simpl in E. destruct (py_str year) eqn:Hy; [|discriminate E].
    exfalso. exact (py_str_nonempty _ Hy).
  - assert (str_contains (py_str year) t = false) as ->; [|reflexivity].
    destruct (str_contains (py_str year) t) eqn:E; [|reflexivity].
    apply str_contains_occurs in E. contradiction.
Qed.

Section SeasonFacts.
Variable W : Type.
Variable http_get : endpoint -> SE W json.

(** X13: [get_season_id] returns the id of the first season, in the order
    of the response, whose name contains the decimal digits of the year
    anywhere; seasons before it without a name or with another name are
    passed over, and seasons after it are not looked at.  A season found
    without an [id] gives null. *)
Theorem first_matching_season (year : Z) (data : json)
  (before after : list json) (d : list (string * json)) (season_name : string)
  (w w' : W) :
  http_get Seasons w = (Ok data, w') ->
  extract_from_wrapper data "season" = Ok (JList (before ++ JDict d :: after)) ->
  Forall (season_passed_over year) before ->
  dict_get d "name" = Some (JStr season_name) ->
  occurs (py_str year) season_name ->
  get_season_id http_get year w
  = (SeasonFound (match dict_get d "id" with Some v => v | None => JNull end),
     w').
Proof.
  intros Hget Hextract Hbefore Hname Hocc. unfold get_season_id. simpl.
  rewrite make_api_request_eq, Hget. unfold lift. rewrite Hextract. simpl.
  f_equal. clear Hextract. induction Hbefore as [|season before Hs _ IH].
  - change ([] ++ JDict d :: after) with (JDict d :: after).
    cbn [find_season py_get]. rewrite Hname. cbn [py_str_in].
    apply str_contains_occurs in Hocc. rewrite Hocc. reflexivity.
  - change ((season :: before) ++ JDict d :: after)
      with (season :: (before ++ JDict d :: after)).
    rewrite (find_season_passes _ Hs). exact IH.
Qed.

(** X14: when no season of the response has the digits of the year in its
    name, an empty response included, [get_season_id] raises its
    [ValueError] after the one request. *)
Theorem no_matching_season (year : Z) (data : json) (seasons : list json)
  (w w' : W) :
  http_get Seasons w = (Ok data, w') ->
  extract_from_wrapper data "season" = Ok (JList seasons) ->
  Forall (season_passed_over year) seasons ->
  get_season_id http_get year w = (SeasonNotFound, w').
Proof.
  intros Hget Hextract Hall. unfold get_season_id. simpl.
  rewrite make_api_request_eq, Hget. unfold lift. rewrite Hextract. simpl.
  f_equal. clear Hextract.
  induction Hall as [|season seasons Hs _ IH]; [reflexivity|].
  rewrite (find_season_passes _ Hs). exact IH.
Qed.

End SeasonFacts.

(** Four seasons, the second without a name: 2025 finds the third, although
    the fourth matches too; 2023 finds none. *)
Lemma first_matching_season_witness :
  let season (fields : list (string * json)) :=
    JDict [("season"%string, JDict fields)] in
  let api (e : endpoint) : SE nat json :=
    fun w =>
      (Ok (JList [season [("id", JStr "s0"); ("name", JStr "2024 Season")];
                  season [("id", JStr "sx")];
                  season [("id", JStr "s1"); ("name", JStr "Spring 2025")];
                  season [("id", JStr "s2");
                          ("name", JStr "2025 Championship")]])%string,
       S w) in
  get_season_id api 2025 0%nat = (SeasonFound (JStr "s1"), 1%nat).
Proof.
  intros season api.
  apply (@first_matching_season nat api 2025
           (JList [season [("id", JStr "s0"); ("name", JStr "2024 Season")];
                   season [("id", JStr "sx")];
                   season [("id", JStr "s1"); ("name", JStr "Spring 2025")];
                   season [("id", JStr "s2");
                           ("name", JStr "2025 Championship")]])%string
           [JDict [("id", JStr "s0"); ("name", JStr "2024 Season")];
            JDict [("id", JStr "sx")]]%string
           [JDict [("id", JStr "s2"); ("name", JStr "2025 Championship")]]%string
           [("id", JStr "s1"); ("name", JStr "Spring 2025")]%string
           "Spring 2025"%string 0%nat 1%nat).
  - reflexivity.
  - reflexivity.
  - constructor; [|constructor; [|constructor]].
    + eexists. split; [reflexivity|]. right. eexists. split; [reflexivity|].
      intros H. apply str_contains_occurs in H. vm_compute in H.
      discriminate H.
    + eexists. split; [reflexivity|]. left. reflexivity.
  - reflexivity.
  - exists "Spring "%string, ""%string. reflexivity.
Defined.

Lemma no_matching_season_witness :
  let api (e : endpoint) : SE nat json :=
    fun w =>
      (Ok (JDict [("seasons",
                   JList [JDict [("id", JStr "s1");
                                 ("name", JStr "Spring 2025")]])])%string,
       S w) in
  get_season_id api 2023 0%nat = (SeasonNotFound, 1%nat).
Proof.
  intros api.
  apply (@no_matching_season nat api 2023
           (JDict [("seasons",
                    JList [JDict [("id", JStr "s1");
                                  ("name", JStr "Spring 2025")]])])%string
           [JDict [("id", JStr "s1"); ("name", JStr "Spring 2025")]]%string
           0%nat 1%nat).
  - reflexivity.
  - reflexivity.
  - constructor; [|constructor].
    eexists. split; [reflexivity|]. right. eexists. split; [reflexivity|].
    intros H. apply str_contains_occurs in H. vm_compute in H.
    discriminate H.
Defined.

(* ------------------------------------------------------------------ *)
(** ** The best-five average as a score *)

Lemma sum_app (l1 l2 : list Z) :
  fold_right Z.add 0 (l1 ++ l2) = fold_right Z.add 0 l1 + fold_right Z.add 0 l2.
Proof. induction l1 as [|x l1 IH]; simpl; lia. Qed.

Lemma sum_perm (l l' : list Z) :
  Permutation l l' -> fold_right Z.add 0 l = fold_right Z.add 0 l'.
Proof. induction 1; simpl; lia. Qed.

Lemma sum_at_least (lo : Z) (l : list Z) :
  (forall x, In x l -> lo <= x) ->
  lo * Z.of_nat (List.length l) <= fold_right Z.add 0 l.
Proof.
  induction l as [|x l IH]; intros H; [simpl; lia|].
  cbn [fold_right List.length].
  assert (lo <= x) by (apply H; left; reflexivity).
  assert (lo * Z.of_nat (List.length l) <= fold_right Z.add 0 l)
    by (apply IH; intros y Hy; apply H; right; exact Hy).
  lia.
Qed.

Lemma sum_at_most (hi : Z) (l : list Z) :
  (forall x, In x l -> x <= hi) ->
  fold_right Z.add 0 l <= hi * Z.of_nat (List.length l).
Proof.
  induction l as [|x l IH]; intros H; [simpl; lia|].
  cbn [fold_right List.length].
  assert (x <= hi) by (apply H; left; reflexivity).
  assert (fold_right Z.add 0 l <= hi * Z.of_nat (List.length l))
    by (apply IH; intros y Hy; apply H; right; exact Hy).
  lia.
Qed.

Lemma sum_low_part (b o : list Z) :
  (forall x y, In x b -> In y o -> x <= y) ->
  fold_right Z.add 0 b * Z.of_nat (List.length o)
  <= fold_right Z.add 0 o * Z.of_nat (List.length b).
Proof.
  induction b as [|x b IH]; intros H; [simpl; lia|].
  cbn [fold_right List.length].
  assert (x * Z.of_nat (List.length o) <= fold_right Z.add 0 o)
    by (apply sum_at_least; intros y Hy; apply H; [left; reflexivity | exact Hy]).
  assert (fold_right Z.add 0 b * Z.of_nat (List.length o)
          <= fold_right Z.add 0 o * Z.of_nat (List.length b))
    by (apply IH; intros a y Ha Hy; apply H; [right; exact Ha | exact Hy]).
  lia.
Qed.

Lemma Zpos_of_nat (n : nat) : (0 < n)%nat -> Z.pos (Pos.of_nat n) = Z.of_nat n.
Proof. intros H. destruct n; lia. Qed.

Lemma Qmake_le (a b : Z) (k n : nat) :
  (0 < k)%nat -> (0 < n)%nat ->
  a * Z.of_nat n <= b * Z.of_nat k ->
  (a # Pos.of_nat k <= b # Pos.of_nat n)%Q.
Proof.
  intros Hk Hn H. unfold Qle. cbn [Qnum Qden].
  rewrite !Zpos_of_nat by assumption. exact H.
Qed.

Lemma spec_mean_Qmake (l : list Z) :
  (0 < List.length l)%nat ->
  (spec_mean l == fold_right Z.add 0%Z l # Pos.of_nat (List.length l))%Q.
Proof.
  intros H. unfold spec_mean. rewrite Qmake_Qdiv, Zpos_of_nat by exact H.
  reflexivity.
Qed.

Lemma true_div_value (n : Z) (d : nat) (q : Q) :
  true_div n d = Ok q -> (0 < d)%nat /\ q = n # Pos.of_nat d.
Proof.
  unfold true_div. destruct d; [discriminate|].
  intros [= <-]. split; [lia | reflexivity].
Qed.

Section AverageFacts.
Variables K N : Type.

(** X16: for a record whose scores are in range, the average of its entry
    is the quotient of a sum that a double holds, at most every score left
    out of the best five, and at least every lower bound of the scores. *)
Theorem best_5_average_bounds (kv : K * PlayerRecord N Z)
  (e : LeaderboardEntry N) :
  Forall in_range (scores (snd kv)) ->
  produced_from kv e ->
  exact_as_float (py_sum (best_5 e))
  /\ (forall y, In y (skipn 5 (py_sorted (scores (snd kv)))) ->
                (avg_best_5 e <= inject_Z y)%Q)
  /\ (forall lo, (forall x, In x (scores (snd kv)) -> lo <= x) ->
                 (inject_Z lo <= avg_best_5 e)%Q).
Proof.
  intros Hrange (_ & _ & Hbest & Hdiv).
  split; [rewrite Hbest; apply best_5_exact, Hrange|].
  apply true_div_value in Hdiv as [Hk Havg]. rewrite Havg.
  rewrite py_sum_fold_right, Hbest in *.
  destruct (best_5_smallest (scores (snd kv))) as (_ & Hperm & Hle).
  set (b := firstn 5 (py_sorted (scores (snd kv)))) in *.
  set (o := skipn 5 (py_sorted (scores (snd kv)))) in *.
  split.
  - intros y Hy. unfold inject_Z.
    change 1%positive with (Pos.of_nat 1). apply Qmake_le; [exact Hk | lia |].
    pose proof (@sum_at_most y b (fun x Hx => Hle x y Hx Hy)). lia.
  - intros lo Hlo. unfold inject_Z.
    change 1%positive with (Pos.of_nat 1). apply Qmake_le; [lia | exact Hk |].
    assert (lo * Z.of_nat (List.length b) <= fold_right Z.add 0 b).
    { apply sum_at_least. intros x Hx. apply Hlo.
      eapply Permutation_in; [symmetry; exact Hperm|].
      apply in_or_app. left. exact Hx. }
    lia.
Qed.

End AverageFacts.

Lemma best_5_average_bounds_witness :
  let kim := ("m1"%string, mkPlayerRecord "Kim"%string [80; 75; 90; 70; 85; 95]) in
  let e := mkEntry "Kim"%string (400 # 5) 6 [70; 75; 80; 85; 90] in
  exact_as_float (py_sum (best_5 e))
  /\ (forall y, In y (skipn 5 (py_sorted (scores (snd kim)))) ->
                (avg_best_5 e <= inject_Z y)%Q)
  /\ (forall lo, (forall x, In x (scores (snd kim)) -> lo <= x) ->
                 (inject_Z lo <= avg_best_5 e)%Q).
Proof.
  cbv zeta. apply best_5_average_bounds.
  - cbn [snd scores]. scores_in_range_tac.
  - split; [reflexivity|]. split; [reflexivity|]. split; reflexivity.
Defined.

Lemma firstn_succ_sum (k : nat) (l : list Z) :
  (k < List.length l)%nat ->
  fold_right Z.add 0 (firstn (S k) l)
  = fold_right Z.add 0 (firstn k l) + nth k l 0.
Proof.
  revert l. induction k as [|k IH]; intros [|x l] H; simpl in H; try lia.
  - simpl. lia.
  - change (firstn (S (S k)) (x :: l)) with (x :: firstn (S k) l).
    change (firstn (S k) (x :: l)) with (x :: firstn k l).
    cbn [fold_right nth]. rewrite IH by lia. lia.
Qed.

Lemma insert_sorted_best (x : Z) (l : list Z) :
  StronglySorted Z.le l ->
  forall k, (k <= List.length l)%nat ->
    fold_right Z.add 0 (firstn k (insert_sorted (fun z => z) Z.ltb x l))
    <= fold_right Z.add 0 (firstn k l).
Proof.
  induction 1 as [|y l Hl IH Hy]; intros k Hk.
  - simpl in Hk. replace k with 0%nat by lia. simpl. lia.
  - destruct k as [|k]; [simpl; lia|]. cbn [insert_sorted].
    cbn [List.length] in Hk.
    destruct (y <? x) eqn:E.
    + cbn [firstn fold_right]. specialize (IH k). lia.
    + change (firstn (S k) (x :: y :: l)) with (x :: firstn k (y :: l)).
      cbn [fold_right]. rewrite (@firstn_succ_sum k (y :: l)) by (simpl; lia).
      assert (y <= nth k (y :: l) 0).
      { destruct k as [|k]; [simpl; lia|]. cbn [nth].
        rewrite Forall_forall in Hy. apply Hy, nth_In. lia. }
      lia.
Qed.

Section MoreRounds.
Variables K N : Type.

(** X17: once a record has five scores, one more round never raises its
    average: the entry of the record with a score added has an average at
    most that of the entry without it. *)
Theorem one_more_round (kv kv' : K * PlayerRecord N Z)
  (e e' : LeaderboardEntry N) (x : Z) :
  produced_from kv e -> produced_from kv' e' ->
  scores (snd kv') = scores (snd kv) ++ [x] ->
  (5 <= List.length (scores (snd kv)))%nat ->
  (avg_best_5 e' <= avg_best_5 e)%Q.
Proof.
  intros (_ & _ & Hb & Hd) (_ & _ & Hb' & Hd') Hscores Hlen.
  apply true_div_value in Hd as [Hk ->], Hd' as [Hk' ->].
  rewrite !py_sum_fold_right, Hb, Hb' in *.
  rewrite Hscores in *.
  assert (py_sorted (scores (snd kv) ++ [x])
          = insert_sorted (fun z => z) Z.ltb x (py_sorted (scores (snd kv))))
    as Hins.
  { rewrite (@py_sorted_of_perm (scores (snd kv) ++ [x]) (x :: scores (snd kv))).
    - reflexivity.
    - rewrite Permutation_app_comm. reflexivity. }
  rewrite !best_5_length, length_app. cbn [List.length].
  replace (Nat.min 5 (List.length (scores (snd kv)) + 1)) with 5%nat by lia.
  replace (Nat.min 5 (List.length (scores (snd kv)))) with 5%nat by lia.
  apply Qmake_le; [lia | lia |]. rewrite Hins.
  assert (List.length (py_sorted (scores (snd kv)))
          = List.length (scores (snd kv))) as Hsame by apply sort_by_length.
  pose proof (@insert_sorted_best x (py_sorted (scores (snd kv)))
                (py_sorted_ascending _) 5%nat) as H.
  rewrite Hsame in H. specialize (H Hlen). lia.
Qed.


End MoreRounds.

Lemma one_more_round_witness :
  let e := mkEntry "Kim"%string (400 # 5) 5 [70; 75; 80; 85; 90] in
  let e' := mkEntry "Kim"%string (382 # 5) 6 [70; 72; 75; 80; 85] in
  (avg_best_5 e' <= avg_best_5 e)%Q.
Proof.
  cbv zeta.
  apply (@one_more_round string string
           ("m1"%string, mkPlayerRecord "Kim"%string [80; 75; 90; 70; 85])
           ("m1"%string, mkPlayerRecord "Kim"%string [80; 75; 90; 70; 85; 72])
           _ _ 72).
  - repeat split.
  - repeat split.
  - reflexivity.
  - simpl. lia.
Defined.


(* ------------------------------------------------------------------ *)
(** ** The order of the map *)

Lemma filter_perm {A : Type} (p : A -> bool) (l l' : list A) :
  Permutation l l' -> Permutation (filter p l) (filter p l').
Proof.
  induction 1 as [|x l l' _ IH|x y l|l1 l2 l3 _ IH1 _ IH2]; simpl.
  - constructor.
  - destruct (p x); [constructor|]; exact IH.
  - destruct (p x), (p y); try reflexivity. constructor.
  - etransitivity; eassumption.
Qed.

Lemma filter_at_most_one {A : Type} (R : A -> A -> Prop) (p : A -> bool)
  (l : list A) :
  ForallOrdPairs (fun a b => ~ R a b) l ->
  (forall a b, p a = true -> p b = true -> R a b) ->
  (List.length (filter p l) <= 1)%nat.
Proof.
  intros Hpairs Hp. induction Hpairs as [|x l Hx _ IH]; simpl; [lia|].
  destruct (p x) eqn:Ex; [|exact IH].
  assert (filter p l = []) as ->; [|simpl; lia].
  destruct (filter p l) as [|y rest] eqn:E; [reflexivity|].
  assert (In y (filter p l)) as Hy by (rewrite E; left; reflexivity).
  apply filter_In in Hy as [Hin Ey].
  rewrite Forall_forall in Hx. exfalso. exact (Hx y Hin (Hp x y Ex Ey)).
Qed.

Lemma perm_short_eq {A : Type} (l l' : list A) :
  Permutation l l' -> (List.length l <= 1)%nat -> l = l'.
Proof.
  intros Hperm Hlen. destruct l as [|x [|y l]]; simpl in Hlen; try lia.
  - apply Permutation_nil in Hperm. congruence.
  - apply Permutation_length_1_inv in Hperm. congruence.
Qed.

Lemma same_rank_Qeq {N : Type} (a b : LeaderboardEntry N) :
  same_rank (@avg_best_5 N) Qlt_bool a b = true <->
  (avg_best_5 a == avg_best_5 b)%Q.
Proof.
  unfold same_rank, Qlt_bool.
  rewrite andb_true_iff, !negb_involutive, !Qle_bool_iff. split.
  - intros [H1 H2]. apply Qle_antisym; assumption.
  - intros H. rewrite H. split; apply Qle_refl.
Qed.

Section MapOrder.
Variables K N : Type.

Lemma produced_from_entry_for (kv : K * PlayerRecord N Z)
  (e : LeaderboardEntry N) :
  produced_from kv e -> e = entry_for kv.
Proof.
  destruct e as [n a r b]. unfold produced_from, entry_for. simpl.
  intros (-> & -> & -> & Hdiv).
  apply true_div_value in Hdiv as [_ ->]. reflexivity.
Qed.

Lemma produced_entries_map (l : list (K * PlayerRecord N Z))
  (entries : list (LeaderboardEntry N)) :
  Forall2 produced_from l entries -> entries = map entry_for l.
Proof.
  induction 1 as [|kv e l entries He _ IH]; simpl; [reflexivity|].
  rewrite (produced_from_entry_for He), IH. reflexivity.
Qed.

(** X18: the order of the records in the map matters for ties only.  A map
    with the same records in another order gives a leaderboard with the same
    entries, and the very same leaderboard when no two entries have the
    same average. *)
Theorem map_order_only_breaks_ties (pd pd' : list (K * PlayerRecord N Z))
  (min_rounds : Z) (lb : list (LeaderboardEntry N)) :
  Permutation pd pd' ->
  calculate_leaderboard pd min_rounds = Ok lb ->
  exists lb',
    calculate_leaderboard pd' min_rounds = Ok lb'
    /\ Permutation lb lb'
    /\ (no_ties lb -> lb' = lb).
Proof.
  intros Hperm Hlb.
  apply calculate_leaderboard_ok in Hlb as (entries & Hloop & -> & Hent).
  assert (exists entries', leaderboard_loop pd' min_rounds [] = Ok entries')
    as [entries' Hloop'].
  { apply leaderboard_loop_returns.
    apply Forall_forall. intros kv Hin Hq Hempty.
    assert (In kv pd) as Hin0
        by (eapply Permutation_in; [symmetry; exact Hperm | exact Hin]).
    assert (Exists (fun kv => qualifies min_rounds kv = true
                              /\ scores (snd kv) = []) pd) as Hex
        by (apply Exists_exists; exists kv; auto).
    rewrite (@leaderboard_loop_raises K N pd min_rounds Hex) in Hloop.
    discriminate. }
  pose proof (@leaderboard_loop_entries K N pd' min_rounds [] entries' Hloop')
    as (new & -> & Hent').
  cbn [app] in *.
  apply produced_entries_map in Hent, Hent'. subst entries new.
  set (es := map entry_for (filter (qualifies min_rounds) pd)) in *.
  set (es' := map entry_for (filter (qualifies min_rounds) pd')) in *.
  assert (Permutation es es') as Hes
      by (apply Permutation_map, filter_perm, Hperm).
  assert (Permutation (sort_by (@avg_best_5 N) Qlt_bool es)
            (sort_by (@avg_best_5 N) Qlt_bool es')) as Hsorted
      by (rewrite <- !sort_by_perm; exact Hes).
  exists (sort_by (@avg_best_5 N) Qlt_bool es').
  split; [unfold calculate_leaderboard; rewrite Hloop'; reflexivity|].
  split; [exact Hsorted|].
  intros Hties. symmetry.
  apply (@stable_sorted_unique _ _ (@avg_best_5 N) Qlt_bool Qlt_bool_asym);
    try (apply sort_by_sorted;
         [apply Qlt_bool_asym | apply Qlt_bool_negtrans]);
    [exact Hsorted|].
  intros z. apply perm_short_eq; [apply filter_perm, Hsorted|].
  apply (@filter_at_most_one _
           (fun a b => (avg_best_5 a == avg_best_5 b)%Q)); [exact Hties|].
  intros a b Ha Hb. apply same_rank_Qeq in Ha, Hb.
  rewrite <- Ha, <- Hb. reflexivity.
Qed.

End MapOrder.

Lemma map_order_only_breaks_ties_witness :
  let ann := ("m1"%string, mkPlayerRecord "Ann"%string [70; 71; 70; 72; 70]) in
  let bob := ("m2"%string, mkPlayerRecord "Bob"%string [60; 61; 59; 60; 60]) in
  let lb := [mkEntry "Bob"%string (300 # 5) 5 [59; 60; 60; 60; 61];
             mkEntry "Ann"%string (353 # 5) 5 [70; 70; 70; 71; 72]] in
  exists lb',
    calculate_leaderboard [bob; ann] 5 = Ok lb'
    /\ Permutation lb lb'
    /\ (no_ties lb -> lb' = lb).
Proof.
  intros ann bob lb.
  apply (@map_order_only_breaks_ties string string [ann; bob] [bob; ann] 5 lb).
  - apply perm_swap.
  - reflexivity.
Defined.

Section TournamentMerge.
Variable W : Type.
Variable http_get : endpoint -> SE W json.

(** X19: a tournament whose results are fetched, their member ids being
    hashable, leaves the world the fetch left and the map that merging
    those results, in order, into the map gives: under every key the record
    that was there, if any, with the scores of the tournament's results for
    that key appended and the name of the last of them. *)
Theorem process_tournament_merges (event_id round_id tournament_id : json)
  (st : run_state W) (results : list PlayerResult) (w' : W) :
  get_tournament_results http_get event_id round_id tournament_id (world st)
  = (Ok results, w') ->
  Forall (fun r => exists kr, hash_key (member_id r) = Ok kr) results ->
  exists pd',
    process_tournament http_get event_id round_id tournament_id st
    = (Ok tt, mkState w' pd')
    /\ forall k,
         lookup k pd'
         = spec_merged (lookup k (player_data st)) (results_of k results).
Proof.
  intros Hget Hhash. exists (merge_all results (player_data st)). split.
  - unfold process_tournament, try_except, call. simpl. rewrite Hget.
    pose proof (for_each_store_result Hhash w' (player_data st)) as Hloop.
    destruct results as [|r rest]; [reflexivity|].
    rewrite Hloop. reflexivity.
  - intros k. apply lookup_merge_all, Hhash.
Qed.

End TournamentMerge.

Lemma process_tournament_merges_witness :
  let st := mkState 4%nat [(KStr "b2", mkPlayerRecord (JStr "Bob") [JNum 91])] in
  let results := [mkPlayerResult (JStr "a1") (JStr "Ann") (JNum 72);
                  mkPlayerResult (JStr "b2") (JStr "Bob") (JNum 80)] in
  exists pd',
    process_tournament demo_api (JStr "e1") (JStr "r2") (JStr "t1") st
    = (Ok tt, mkState 5%nat pd')
    /\ forall k,
         lookup k pd'
         = spec_merged (lookup k (player_data st)) (results_of k results).
Proof.
  intros st results.
  apply (@process_tournament_merges nat demo_api (JStr "e1") (JStr "r2")
           (JStr "t1") st results 5%nat).
  - reflexivity.
  - repeat constructor; eexists; reflexivity.
Defined.
